(** * Pixi environment discovery: a verified model of [pixi.ts] and
      [pixiLocator.ts].

    The development embeds
    - [client/pythonEnvironments/common/environmentManagers/pixi.ts]
      (path derivation, the [Pixi] handle, the process-wide registry and the
      candidate probing of [Pixi.locate]), and
    - the Pixi locator ([getVirtualEnvDirs], [PixiLocator.doIterEnvs]).

    JavaScript strings are modelled by [string] (their UTF-8 bytes), promises
    by their settled outcome, and the collaborators the code imports (process
    launcher, settings, filesystem, interpreter resolver, Node's [path]) by
    the fields of a [World].  Of the two variants of [pixi.ts] at hand, the
    one with [getPixiInfo] and [getRunPythonArgs] is the one embedded; the
    other differs in [getEnvListCached], which there runs the tool itself.

    The file has the definitions first (Node's [path], [JSON.parse],
    JavaScript values, the world and the process state, the two source files,
    sample worlds and reference descriptions) and the properties after
    them. *)

From Stdlib Require Import ZArith Lia List Ascii String Bool.
From stdpp Require Import base option list strings gmap.

Local Open Scope string_scope.
Local Open Scope Z_scope.
Local Open Scope list_scope.

(** ** Node's [path] module *)

(** The three functions of [path] the sources call.  Which flavour is loaded
    ([path.posix] or [path.win32]) depends on the platform Node runs on. *)
Record PathModule := {
  dirname : string -> string;
  basename : string -> string;
  join : list string -> string
}.

Module Posix.

Definition slash : ascii := "/"%char.

Definition is_slash (c : ascii) : bool := Ascii.eqb c slash.

Definition charAt (s : string) (i : nat) : option ascii := String.get i s.

(** The loop of [posix.dirname]: [i] runs from [path.length - 1] down to 1;
    the result is the index [end], or [None] for [-1].  [dirname_scan path n]
    handles the indices [n, n-1, ..., 1]. *)
Fixpoint dirname_scan (path : string) (n : nat) (matchedSlash : bool)
  : option nat :=
  match n with
  | O => None
  | S n' =>
      match charAt path n with
      | Some c =>
          if is_slash c then
            if matchedSlash then dirname_scan path n' true else Some n
          else dirname_scan path n' false
      | None => dirname_scan path n' matchedSlash
      end
  end.

Definition dirname (path : string) : string :=
  if String.eqb path "" then "."
  else
    let hasRoot := match charAt path 0 with
                   | Some c => is_slash c
                   | None => false
                   end in
    match dirname_scan path (String.length path - 1) true with
    | None => if hasRoot then "/" else "."
    | Some e =>
        if hasRoot && Nat.eqb e 1 then "//"
        else String.substring 0 e path
    end.

(** The loop of [posix.basename] without a suffix: [i] runs from
    [path.length - 1] down to 0.  The state is [(start, end, matchedSlash)],
    with [None] for [end = -1]; [basename_scan path n] handles the indices
    [n - 1, ..., 0]. *)
Fixpoint basename_scan (path : string) (n : nat) (e : option nat)
    (matchedSlash : bool) : nat * option nat :=
  match n with
  | O => (O, e)
  | S i =>
      match charAt path i with
      | Some c =>
          if is_slash c then
            if matchedSlash then basename_scan path i e matchedSlash
            else (S i, e)
          else
            match e with
            | None => basename_scan path i (Some (S i)) false
            | Some _ => basename_scan path i e matchedSlash
            end
      | None => basename_scan path i e matchedSlash
      end
  end.

Definition basename (path : string) : string :=
  match basename_scan path (String.length path) None true with
  | (_, None) => ""
  | (start, Some e) => String.substring start (e - start) path
  end.

(** Splitting at every separator: ["a//b/"] gives [["a"; ""; "b"; ""]]. *)
Fixpoint split_acc (cur : string) (s : string) : list string :=
  match s with
  | EmptyString => [String.rev cur]
  | String c rest =>
      if is_slash c then String.rev cur :: split_acc "" rest
      else split_acc (String c cur) rest
  end.

Definition segments (s : string) : list string := split_acc "" s.

(** [normalizeString], one separator-delimited segment at a time.  [res] is
    the list of segments kept so far, last one first. *)
Definition normalize_step (allowAboveRoot : bool) (res : list string)
    (seg : string) : list string :=
  if String.eqb seg "" || String.eqb seg "." then res
  else if String.eqb seg ".." then
    match res with
    | last :: before =>
        if String.eqb last ".." then
          if allowAboveRoot then ".." :: res else res
        else before
    | [] => if allowAboveRoot then [".."] else []
    end
  else seg :: res.

Definition normalizeString (path : string) (allowAboveRoot : bool) : string :=
  String.concat "/"
    (rev (fold_left (normalize_step allowAboveRoot) (segments path) [])).

Definition last_is_slash (path : string) : bool :=
  match charAt path (String.length path - 1) with
  | Some c => is_slash c
  | None => false
  end.

Definition normalize (path : string) : string :=
  if String.eqb path "" then "."
  else
    let isAbsolute := match charAt path 0 with
                      | Some c => is_slash c
                      | None => false
                      end in
    let trailingSeparator := last_is_slash path in
    let p := normalizeString path (negb isAbsolute) in
    if String.eqb p "" then
      if isAbsolute then "/" else if trailingSeparator then "./" else "."
    else
      let p' := if trailingSeparator then p +:+ "/" else p in
      if isAbsolute then "/" +:+ p' else p'.

Definition join (args : list string) : string :=
  match List.filter (fun a => negb (String.eqb a "")) args with
  | [] => "."
  | parts => normalize (String.concat "/" parts)
  end.

End Posix.

Definition posix : PathModule :=
  {| dirname := Posix.dirname; basename := Posix.basename; join := Posix.join |}.

(** ** JSON values and [JSON.parse] *)

Module Json.

(** A number literal [-?int.frac e exp] is kept as its exact decimal value
    [(-1)^neg * mantissa * 10^exp10]. *)
#[local] Unset Elimination Schemes.
Inductive json : Type :=
| JNull
| JBool (b : bool)
| JNumber (neg : bool) (mantissa : N) (exp10 : Z)
| JString (s : string)
| JArray (items : list json)
| JObject (members : list (string * json)).
#[local] Set Elimination Schemes.

Inductive pres (A : Type) : Type :=
| POk (a : A) (rest : list ascii)
| PSyntax
| PFuel.
Arguments POk {A} a rest.
Arguments PSyntax {A}.
Arguments PFuel {A}.

Definition quote : ascii := "034"%char.
Definition backslash : ascii := "092"%char.

Definition is_ws (c : ascii) : bool :=
  let n := N_of_ascii c in
  (N.eqb n 32 || N.eqb n 9 || N.eqb n 10 || N.eqb n 13)%N.

Fixpoint skip_ws (s : list ascii) : list ascii :=
  match s with
  | c :: r => if is_ws c then skip_ws r else s
  | [] => []
  end.

Definition digit_val (c : ascii) : option N :=
  let n := N_of_ascii c in
  if (N.leb 48 n && N.leb n 57)%N then Some (n - 48)%N else None.

Definition hex_val (c : ascii) : option N :=
  let n := N_of_ascii c in
  if (N.leb 48 n && N.leb n 57)%N then Some (n - 48)%N
  else if (N.leb 65 n && N.leb n 70)%N then Some (n - 55)%N
  else if (N.leb 97 n && N.leb n 102)%N then Some (n - 87)%N
  else None.

Definition hex4 (a b c d : ascii) : option N :=
  match hex_val a, hex_val b, hex_val c, hex_val d with
  | Some x, Some y, Some z, Some w => Some (((x * 16 + y) * 16 + z) * 16 + w)%N
  | _, _, _, _ => None
  end.

Definition byte (n : N) : ascii := ascii_of_N n.

(** UTF-8 bytes of a code point; a lone surrogate gets the three-byte form
    too, so distinct JavaScript strings stay distinct. *)
Definition utf8 (cp : N) : list ascii :=
  (if cp <? 128 then [byte cp]
   else if cp <? 2048 then [byte (192 + cp / 64); byte (128 + cp mod 64)]
   else if cp <? 65536 then
     [byte (224 + cp / 4096); byte (128 + (cp / 64) mod 64); byte (128 + cp mod 64)]
   else
     [byte (240 + cp / 262144); byte (128 + (cp / 4096) mod 64);
      byte (128 + (cp / 64) mod 64); byte (128 + cp mod 64)])%N.

Definition is_high (cu : N) : bool := (N.leb 55296 cu && N.leb cu 56319)%N.
Definition is_low (cu : N) : bool := (N.leb 56320 cu && N.leb cu 57343)%N.

(** Bytes to emit for a pending lone high surrogate. *)
Definition flush (hi : option N) : list ascii :=
  match hi with
  | Some h => utf8 h
  | None => []
  end.

Definition simple_escape (c : ascii) : option ascii :=
  let n := N_of_ascii c in
  if N.eqb n 34 then Some quote
  else if N.eqb n 92 then Some backslash
  else if N.eqb n 47 then Some "/"%char
  else if N.eqb n 98 then Some "008"%char
  else if N.eqb n 102 then Some "012"%char
  else if N.eqb n 110 then Some "010"%char
  else if N.eqb n 114 then Some "013"%char
  else if N.eqb n 116 then Some "009"%char
  else None.

(** The characters of a string literal after its opening quote.  [acc] holds
    the bytes read so far, last one first; [hi] is a high surrogate read
    from a [\u] escape and still waiting for its low half. *)
Fixpoint lex_string (s : list ascii) (acc : list ascii) (hi : option N)
  : pres string :=
  match s with
  | [] => PSyntax
  | c :: r =>
      if Ascii.eqb c quote then
        POk (string_of_list_ascii (rev (rev (flush hi) ++ acc))) r
      else if Ascii.eqb c backslash then
        match r with
        | [] => PSyntax
        | e :: r1 =>
            if Ascii.eqb e "u"%char then
              match r1 with
              | h1 :: h2 :: h3 :: h4 :: r2 =>
                  match hex4 h1 h2 h3 h4 with
                  | None => PSyntax
                  | Some cu =>
                      match hi with
                      | Some h =>
                          if is_low cu then
                            let cp := (65536 + (h - 55296) * 1024 + (cu - 56320))%N in
                            lex_string r2 (rev (utf8 cp) ++ acc) None
                          else if is_high cu then
                            lex_string r2 (rev (utf8 h) ++ acc) (Some cu)
                          else lex_string r2 (rev (utf8 cu) ++ rev (utf8 h) ++ acc) None
                      | None =>
                          if is_high cu then lex_string r2 acc (Some cu)
                          else lex_string r2 (rev (utf8 cu) ++ acc) None
                      end
                  end
              | _ => PSyntax
              end
            else
              match simple_escape e with
              | Some x => lex_string r1 (x :: rev (flush hi) ++ acc) None
              | None => PSyntax
              end
        end
      else if (N_of_ascii c <? 32)%N then PSyntax
      else lex_string r (c :: rev (flush hi) ++ acc) None
  end.

(** The longest prefix of decimal digits, as their values. *)
Fixpoint digits (s : list ascii) : list N * list ascii :=
  match s with
  | c :: r =>
      match digit_val c with
      | Some d => let '(ds, rest) := digits r in (d :: ds, rest)
      | None => ([], s)
      end
  | [] => ([], [])
  end.

Definition decimal (ds : list N) : N := fold_left (fun a d => a * 10 + d)%N ds 0%N.

(** the digits of an exponent, after its [e] and sign *)
Definition exponent_digits (sign : Z) (s : list ascii) : pres Z :=
  match digits s with
  | ([], _) => PSyntax
  | (ds, rest) => POk (sign * Z.of_N (decimal ds)) rest
  end.

(** exponent part: [[eE] [+-]? digit+], or nothing *)
Definition lex_exponent (s : list ascii) : pres Z :=
  match s with
  | c :: r =>
      if Ascii.eqb c "e"%char || Ascii.eqb c "E"%char then
        match r with
        | x :: r' =>
            if Ascii.eqb x "-"%char then exponent_digits (-1) r'
            else if Ascii.eqb x "+"%char then exponent_digits 1 r'
            else exponent_digits 1 r
        | [] => PSyntax
        end
      else POk 0 s
  | [] => POk 0 s
  end.

(** fraction part: [. digit+], or nothing *)
Definition lex_fraction (s : list ascii) : pres (list N) :=
  match s with
  | c :: r =>
      if Ascii.eqb c "."%char then
        match digits r with
        | ([], _) => PSyntax
        | (ds, rest) => POk ds rest
        end
      else POk [] s
  | [] => POk [] s
  end.

(** what follows the integer digits [int] of a number *)
Definition number_tail (neg : bool) (int : list N) (s : list ascii) : pres json :=
  match lex_fraction s with
  | POk frac s' =>
      match lex_exponent s' with
      | POk e rest =>
          POk (JNumber neg (decimal (int ++ frac)) (e - Z.of_nat (length frac))) rest
      | PSyntax => PSyntax
      | PFuel => PFuel
      end
  | PSyntax => PSyntax
  | PFuel => PFuel
  end.

(** a number after its sign: [0], or a digit from 1 to 9 and more digits;
    a leading 0 stands alone, the integer part of "012" is "0" *)
Definition unsigned_number (neg : bool) (s : list ascii) : pres json :=
  match digits s with
  | ([], _) => PSyntax
  | (d :: ds, rest) =>
      if N.eqb d 0 then number_tail neg [d] (skipn 1 s)
      else number_tail neg (d :: ds) rest
  end.

Definition lex_number (s : list ascii) : pres json :=
  match s with
  | c :: r => if Ascii.eqb c "-"%char then unsigned_number true r else unsigned_number false s
  | [] => PSyntax
  end.

Fixpoint strip_prefix (p s : list ascii) : option (list ascii) :=
  match p, s with
  | [], _ => Some s
  | a :: p', b :: s' => if Ascii.eqb a b then strip_prefix p' s' else None
  | _ :: _, [] => None
  end.

Definition lex_literal (word : string) (v : json) (s : list ascii) : pres json :=
  match strip_prefix (list_ascii_of_string word) s with
  | Some rest => POk v rest
  | None => PSyntax
  end.

(** Recursive descent over the grammar of ECMA-404.  Every call takes one
    unit of [fuel]; [parse] below supplies enough of it. *)
Fixpoint parse_value (fuel : nat) (s : list ascii) : pres json :=
  match fuel with
  | O => PFuel
  | S f =>
      match skip_ws s with
      | [] => PSyntax
      | c :: r =>
          if Ascii.eqb c "{"%char then
            match skip_ws r with
            | c' :: r' =>
                if Ascii.eqb c' "}"%char then POk (JObject []) r'
                else parse_members f (c' :: r') []
            | [] => PSyntax
            end
          else if Ascii.eqb c "["%char then
            match skip_ws r with
            | c' :: r' =>
                if Ascii.eqb c' "]"%char then POk (JArray []) r'
                else parse_elements f (c' :: r') []
            | [] => PSyntax
            end
          else if Ascii.eqb c quote then
            match lex_string r [] None with
            | POk str rest => POk (JString str) rest
            | PSyntax => PSyntax
            | PFuel => PFuel
            end
          else if Ascii.eqb c "t"%char then lex_literal "true" (JBool true) (c :: r)
          else if Ascii.eqb c "f"%char then lex_literal "false" (JBool false) (c :: r)
          else if Ascii.eqb c "n"%char then lex_literal "null" JNull (c :: r)
          else lex_number (c :: r)
      end
  end
with parse_elements (fuel : nat) (s : list ascii) (acc : list json) : pres json :=
  match fuel with
  | O => PFuel
  | S f =>
      match parse_value f s with
      | POk v r =>
          match skip_ws r with
          | c :: r' =>
              if Ascii.eqb c ","%char then parse_elements f r' (v :: acc)
              else if Ascii.eqb c "]"%char then POk (JArray (rev (v :: acc))) r'
              else PSyntax
          | [] => PSyntax
          end
      | PSyntax => PSyntax
      | PFuel => PFuel
      end
  end
with parse_members (fuel : nat) (s : list ascii) (acc : list (string * json)) : pres json :=
  match fuel with
  | O => PFuel
  | S f =>
      match skip_ws s with
      | q :: r =>
          if Ascii.eqb q quote then
            match lex_string r [] None with
            | POk k r1 =>
                match skip_ws r1 with
                | c :: r2 =>
                    if Ascii.eqb c ":"%char then
                      match parse_value f r2 with
                      | POk v r3 =>
                          match skip_ws r3 with
                          | c' :: r4 =>
                              if Ascii.eqb c' ","%char then parse_members f r4 ((k, v) :: acc)
                              else if Ascii.eqb c' "}"%char then POk (JObject (rev ((k, v) :: acc))) r4
                              else PSyntax
                          | [] => PSyntax
                          end
                      | PSyntax => PSyntax
                      | PFuel => PFuel
                      end
                    else PSyntax
                | [] => PSyntax
                end
            | PSyntax => PSyntax
            | PFuel => PFuel
            end
          else PSyntax
      | [] => PSyntax
      end
  end.

Definition enough_fuel (s : list ascii) : nat := (2 * length s + 2)%nat.

(** [JSON.parse(text)]: one value, surrounded by optional white space;
    [None] is the [SyntaxError].  The fuel never runs out
    ([parse_never_out_of_fuel]). *)
Definition parse (text : string) : option json :=
  let s := list_ascii_of_string text in
  match parse_value (enough_fuel s) s with
  | POk v rest =>
      match skip_ws rest with
      | [] => Some v
      | _ :: _ => None
      end
  | PSyntax => None
  | PFuel => None
  end.

(** Writes a JSON text with ['] where the text has the double quote. *)
Definition text (s : string) : string :=
  string_of_list_ascii
    (map (fun c => if Ascii.eqb c "'"%char then quote else c) (list_ascii_of_string s)).

End Json.

Export Json(json(..)).

(** ** JavaScript values, errors and promises *)

Inductive JsError : Type :=
| SyntaxError
| TypeError
| ExternalError (msg : string).

(** The outcome of a call, or of a settled promise. *)
Inductive Result (A : Type) : Type :=
| Ok (a : A)
| Throw (e : JsError).
Arguments Ok {A} a.
Arguments Throw {A} e.

(** A value read out of a parsed document: [None] is [undefined]. *)
Abbreviation jsval := (option json).
Abbreviation undefined := (@None json).

Definition str (s : string) : jsval := Some (JString s).

(** Does the decimal [m * 10^e] round to the double [0]?  It does when it is
    at most [2^-1075], half the least positive double. *)
Definition rounds_to_zero (m : N) (e : Z) : bool :=
  (m =? 0)%N || ((e <? 0) && (Z.of_N m * 2 ^ 1075 <=? 10 ^ (- e))).

(** [!!v] *)
Definition truthy (v : json) : bool :=
  match v with
  | JNull => false
  | JBool b => b
  | JNumber _ m e => negb (rounds_to_zero m e)
  | JString s => negb (String.eqb s "")
  | JArray _ | JObject _ => true
  end.

(** An own property of a parsed object; of two members with one key
    [JSON.parse] keeps the later. *)
Definition own_property (k : string) (members : list (string * json)) : jsval :=
  fold_left (fun found m => if String.eqb (fst m) k then Some (snd m) else found)
    members undefined.

(** [v.k] for a data key [k] that no prototype defines (the sources read
    [environments_info], [prefix], [project_info] and [version]). *)
Definition member (v : json) (k : string) : Result jsval :=
  match v with
  | JNull => Throw TypeError
  | JObject ms => Ok (own_property k ms)
  | JBool _ | JNumber _ _ _ | JString _ | JArray _ => Ok undefined
  end.

Fixpoint mapR {A B : Type} (f : A -> Result B) (l : list A) : Result (list B) :=
  match l with
  | [] => Ok []
  | x :: l' =>
      match f x with
      | Ok y =>
          match mapR f l' with
          | Ok ys => Ok (y :: ys)
          | Throw e => Throw e
          end
      | Throw e => Throw e
      end
  end.

(** [v.map(f)]: only an array has a [map] to call. *)
Definition array_map {B : Type} (v : jsval) (f : json -> Result B) : Result (list B) :=
  match v with
  | Some (JArray items) => mapR f items
  | _ => Throw TypeError
  end.

(** [JSON.parse(text)]: the value, or a [SyntaxError] *)
Definition JSON_parse (text : string) : Result json :=
  match Json.parse text with
  | Some v => Ok v
  | None => Throw SyntaxError
  end.

(** ** The collaborators *)

(** Modelled from the spec: [OSType] of common/utils/platform is not among
    the sources; the spec tells "the Windows OS family" from "all other OS
    families". *)
Inductive OSType : Type :=
| Windows
| OtherOS (family : string).

(** [os === OSType.Windows] *)
Definition is_windows (os : OSType) : bool :=
  match os with
  | Windows => true
  | OtherOS _ => false
  end.

Definition Linux : OSType := OtherOS "Linux".

Record ShellOptions := {
  opt_cwd : string;
  throwOnStdErr : bool
}.

Record ExecutionResult := {
  stdout : string;
  stderr : option string
}.

Record World := {
  path : PathModule;
  getOSType : OSType;
  getUserHomeDir : option string;
  isTestExecution : bool;
  (** the settings store: a string, [undefined], or a failed read *)
  getPythonSetting : string -> Result (option string);
  pathExistsSync : string -> bool;
  (** the asynchronous existence check; the locator hands it whatever sat
      under [prefix] in the tool's output *)
  pathExists : jsval -> bool;
  isParentPath : string -> string -> bool;
  (** the process launcher: rejects, or resolves with the captured output *)
  exec : string -> list string -> ShellOptions -> Result ExecutionResult;
  (** conda's interpreter resolver for an environment directory *)
  getCondaInterpreterPath : jsval -> Result (option string);
  OUTPUT_MARKER_SCRIPT : string
}.

(** ** Process state *)

Record Pixi := {
  command : string;
  cwd : string;
  (** object identity: [new Pixi] numbers the handles it creates *)
  oid : nat
}.

Record ExecCall := {
  call_file : string;
  call_args : list string;
  call_options : ShellOptions
}.

Inductive LogLevel : Type := LVerbose | LWarn | LError.

(** What a trace call is given: text, a value spliced into a template, an
    error. *)
Inductive LogArg : Type :=
| LStr (s : string)
| LVal (v : jsval)
| LErr (e : JsError).

Record CacheEntry (A : Type) := {
  data : Result A;
  expiry : Z
}.
Arguments data {A} _.
Arguments expiry {A} _.

Record State := {
  (** [Pixi.pixiPromise]: working directory to the promise of its handle *)
  pixiPromise : gmap string (Result (option Pixi));
  (** the memo of [getPixiInfo], per handle and argument *)
  infoCache : gmap (nat * string) (CacheEntry jsval);
  (** the memo of [getEnvListCached], per handle and argument *)
  envListCache : gmap (nat * string) (CacheEntry (option (list jsval)));
  nextOid : nat;
  (** [Date.now()], in milliseconds *)
  now : Z;
  (** every process started so far, oldest first *)
  execLog : list ExecCall;
  (** every trace written so far, oldest first *)
  traceLog : list (LogLevel * list LogArg)
}.

Definition set_pixiPromise (m : gmap string (Result (option Pixi))) (s : State) : State :=
  {| pixiPromise := m; infoCache := infoCache s; envListCache := envListCache s;
     nextOid := nextOid s; now := now s; execLog := execLog s; traceLog := traceLog s |}.

Definition set_infoCache (m : gmap (nat * string) (CacheEntry jsval)) (s : State) : State :=
  {| pixiPromise := pixiPromise s; infoCache := m; envListCache := envListCache s;
     nextOid := nextOid s; now := now s; execLog := execLog s; traceLog := traceLog s |}.

Definition set_envListCache (m : gmap (nat * string) (CacheEntry (option (list jsval))))
    (s : State) : State :=
  {| pixiPromise := pixiPromise s; infoCache := infoCache s; envListCache := m;
     nextOid := nextOid s; now := now s; execLog := execLog s; traceLog := traceLog s |}.

Definition set_nextOid (n : nat) (s : State) : State :=
  {| pixiPromise := pixiPromise s; infoCache := infoCache s; envListCache := envListCache s;
     nextOid := n; now := now s; execLog := execLog s; traceLog := traceLog s |}.

Definition set_execLog (l : list ExecCall) (s : State) : State :=
  {| pixiPromise := pixiPromise s; infoCache := infoCache s; envListCache := envListCache s;
     nextOid := nextOid s; now := now s; execLog := l; traceLog := traceLog s |}.

Definition set_traceLog (l : list (LogLevel * list LogArg)) (s : State) : State :=
  {| pixiPromise := pixiPromise s; infoCache := infoCache s; envListCache := envListCache s;
     nextOid := nextOid s; now := now s; execLog := execLog s; traceLog := l |}.

Definition set_now (t : Z) (s : State) : State :=
  {| pixiPromise := pixiPromise s; infoCache := infoCache s; envListCache := envListCache s;
     nextOid := nextOid s; now := t; execLog := execLog s; traceLog := traceLog s |}.

Definition initial (t : Z) : State :=
  {| pixiPromise := ∅; infoCache := ∅; envListCache := ∅; nextOid := 0%nat;
     now := t; execLog := []; traceLog := [] |}.

(** ** Computations: state passing with exceptions

    An [async] function is run to completion: the result is the outcome its
    promise settles with.  The state reached before a [throw] is kept. *)

Definition M (A : Type) : Type := State -> Result A * State.

Definition ret {A : Type} (a : A) : M A := fun s => (Ok a, s).

Definition bind {A B : Type} (m : M A) (k : A -> M B) : M B :=
  fun s =>
    match m s with
    | (Ok a, s') => k a s'
    | (Throw e, s') => (Throw e, s')
    end.

Definition throw {A : Type} (e : JsError) : M A := fun s => (Throw e, s).

Definition lift {A : Type} (r : Result A) : M A := fun s => (r, s).

(** [try { m } catch (ex) { h ex }], and [promise.catch(h)] *)
Definition catch {A : Type} (m : M A) (h : JsError -> M A) : M A :=
  fun s =>
    match m s with
    | (Ok a, s') => (Ok a, s')
    | (Throw e, s') => h e s'
    end.

#[global] Instance M_ret : MRet M := @ret.
#[global] Instance M_bind : MBind M := fun A B k m => bind m k.

Definition trace (level : LogLevel) (args : list LogArg) : M unit :=
  fun s => (Ok tt, set_traceLog (traceLog s ++ [(level, args)]) s).

Definition traceVerbose (msg : string) : M unit := trace LVerbose [LStr msg].
Definition traceWarn (msg : string) : M unit := trace LWarn [LStr msg].
Definition traceError (args : list LogArg) : M unit := trace LError args.

(** [new Pixi(command, cwd)] *)
Definition new_Pixi (command cwd : string) : M Pixi :=
  fun s => (Ok {| command := command; cwd := cwd; oid := nextOid s |},
            set_nextOid (S (nextOid s)) s).

(** Modelled from the spec: the [@cache] decorator of common/utils/decorators
    is not among the sources.  Per the spec a handle owns one memo per
    accessor, keyed by the call's argument, and "a result remains valid for
    its TTL": a call finds the entry of its key and, while the entry has not
    expired, gets what that call got; otherwise the method runs and its
    outcome replaces the entry.  With [cachePromise] it is the promise that
    is kept, whichever way it settles; without, only a fulfilled value.  The
    TTL is the first argument; of the third the spec says nothing, and it
    plays no role here. *)
Definition cache {A : Type} (expiryDurationMs : Z) (cachePromise : bool)
    (expiryDurationAfterStartUp : Z)
    (store : State -> gmap (nat * string) (CacheEntry A))
    (set_store : gmap (nat * string) (CacheEntry A) -> State -> State)
    (this : Pixi) (key : string) (method : M A) : M A :=
  fun s =>
    let miss :=
      let '(r, s') := method s in
      let item := {| data := r; expiry := now s + expiryDurationMs |} in
      match r with
      | Ok _ => (r, set_store (<[(oid this, key) := item]> (store s')) s')
      | Throw _ =>
          if cachePromise
          then (r, set_store (<[(oid this, key) := item]> (store s')) s')
          else (r, s')
      end in
    match store s !! (oid this, key) with
    | Some item => if now s <? expiry item then (data item, s) else miss
    | None => miss
    end.

Definition gets {A : Type} (f : State -> A) : M A := fun s => (Ok (f s), s).

Definition modify (f : State -> State) : M unit := fun s => (Ok tt, f s).

(** Calling an [async] function without awaiting it: the promise it returns,
    settled. *)
Definition promise_of {A : Type} (m : M A) : M (Result A) :=
  fun s => let '(r, s') := m s in (Ok r, s').

(** [await p] *)
Definition await {A : Type} (p : Result A) : M A := lift p.

(** ** pixi.ts *)

Section PixiTs.

Context (w : World).

(** *** Path derivation *)

Definition getCondaEnvironmentFromInterpreterPath (interpreterPath : string) : string :=
  let interpreterDir := dirname (path w) interpreterPath in
  if is_windows (getOSType w) then interpreterDir
  else dirname (path w) interpreterDir.

Definition getPixiProjectFolderFromInterpreter (interpreterPath : string) : string :=
  let envDir := getCondaEnvironmentFromInterpreterPath interpreterPath in
  let envsDir := dirname (path w) envDir in
  let pixiDir := dirname (path w) envsDir in
  let projectDir := dirname (path w) pixiDir in
  projectDir.

Definition isPixiEnvironment (interpreterPath : string) : bool :=
  let projectDir := getPixiProjectFolderFromInterpreter interpreterPath in
  let pixiTomlPath := join (path w) [projectDir; "pixi.toml"] in
  pathExists w (str pixiTomlPath).

Definition isPixiEnvironmentRelatedToFolder (interpreterPath folder : string) : bool :=
  let projectPath := getPixiProjectFolderFromInterpreter interpreterPath in
  isParentPath w folder projectPath.

Definition isNonDefaultPixiEnvironmentName (envName : option string) : bool :=
  match envName with
  | Some n => negb (String.eqb n "default")
  | None => false
  end.

(** *** The [Pixi] handle *)

(** [exec(file, args, options)], noting the call *)
Definition call_exec (file : string) (args : list string) (options : ShellOptions)
  : M ExecutionResult :=
  fun s =>
    (exec w file args options,
     set_execLog (execLog s ++ [{| call_file := file; call_args := args;
                                   call_options := options |}]) s).

Definition getPixiInfo_body (this : Pixi) (_cwd : string) : M jsval :=
  infoOutput ← catch
    (out ← call_exec (command this) ["info"; "--json"]
             {| opt_cwd := cwd this; throwOnStdErr := false |};
     mret (Some out))
    (fun err => traceError [LErr err];; mret None);
  match infoOutput with
  | None => mret undefined
  | Some out =>
      pixiInfo ← lift (JSON_parse (stdout out));
      mret (Some pixiInfo)
  end.

Definition getPixiInfo (this : Pixi) (_cwd : string) : M jsval :=
  cache 1000 true 1000 infoCache set_infoCache this _cwd
    (getPixiInfo_body this _cwd).

(** [pixiInfo?.environments_info.map((env) => env.prefix)] *)
Definition environment_prefixes (pixiInfo : jsval) : Result (option (list jsval)) :=
  match pixiInfo with
  | None | Some JNull => Ok None
  | Some info =>
      match member info "environments_info" with
      | Ok environments_info =>
          match array_map environments_info (fun env => member env "prefix") with
          | Ok prefixes => Ok (Some prefixes)
          | Throw e => Throw e
          end
      | Throw e => Throw e
      end
  end.

Definition getEnvListCached_body (this : Pixi) (cwd : string) : M (option (list jsval)) :=
  pixiInfo ← getPixiInfo this cwd;
  lift (environment_prefixes pixiInfo).

Definition getEnvListCached (this : Pixi) (cwd : string) : M (option (list jsval)) :=
  cache 30000 true 10000 envListCache set_envListCache this cwd
    (getEnvListCached_body this cwd).

Definition getEnvList (this : Pixi) : M (option (list jsval)) :=
  getEnvListCached this (cwd this).

Definition getRunPythonArgs (this : Pixi) (manifestPath : string)
    (envName : option string) (isolatedFlag : bool) : list string :=
  let python := [command this; "run"; "--manifest-path"; manifestPath] in
  let python :=
    match envName with
    | Some n =>
        if isNonDefaultPixiEnvironmentName envName
        then python ++ ["--environment"; n]
        else python
    | None => python
    end in
  let python := python ++ ["python"] in
  let python := if isolatedFlag then python ++ ["-I"] else python in
  python ++ [OUTPUT_MARKER_SCRIPT w].

(** *** Locating the tool *)

(** The generator [getCandidates], one entry per stretch of code between
    two [yield]s: running an entry gives the candidate it yields, if any. *)
Definition custom_candidate : M (option string) :=
  catch
    (custompixiToolPath ← lift (getPythonSetting w "pixiToolPath");
     mret (match custompixiToolPath with
           | Some p =>
               if negb (String.eqb p "") && negb (String.eqb p "pixi")
               then Some p else None
           | None => None
           end))
    (fun ex => traceError [LStr "Failed to get pixi setting"; LErr ex];; mret None).

Definition bare_candidate : M (option string) := mret (Some "pixi").

Definition home_candidate : M (option string) :=
  mret (match getUserHomeDir w with
        | Some home =>
            if negb (String.eqb home "") then
              let defaultpixiToolPath := join (path w) [home; ".pixi"; "bin"; "pixi"] in
              if pathExistsSync w defaultpixiToolPath
              then Some defaultpixiToolPath else None
            else None
        | None => None
        end).

Definition getCandidates : list (M (option string)) :=
  [custom_candidate; bare_candidate; home_candidate].

(** The [for ... of getCandidates()] loop of [locate]. *)
Fixpoint probe (cwd : string) (candidates : list (M (option string)))
  : M (option Pixi) :=
  match candidates with
  | [] =>
      traceVerbose ("No pixi binary found for " +:+ cwd);;
      mret None
  | next :: rest =>
      candidate ← next;
      match candidate with
      | None => probe cwd rest
      | Some pixiToolPath =>
          traceVerbose ("Probing pixi binary for " +:+ cwd +:+ ": " +:+ pixiToolPath);;
          pixi ← new_Pixi pixiToolPath cwd;
          virtualenvs ← getEnvList pixi;
          match virtualenvs with
          | Some _ =>
              traceVerbose ("Found pixi via filesystem probing for " +:+ cwd
                            +:+ ": " +:+ pixiToolPath);;
              mret (Some pixi)
          | None =>
              traceVerbose ("Failed to find pixi for " +:+ cwd +:+ ": " +:+ pixiToolPath);;
              probe cwd rest
          end
      end
  end.

Definition locate (cwd : string) : M (option Pixi) :=
  traceVerbose ("Getting pixi for cwd " +:+ cwd);;
  probe cwd getCandidates.

Definition getPixi (cwd : string) : M (option Pixi) :=
  entry ← gets (fun s => pixiPromise s !! cwd);
  (if match entry with None => true | Some _ => false end || isTestExecution w
   then
     promise ← promise_of (locate cwd);
     modify (fun s => set_pixiPromise (<[cwd := promise]> (pixiPromise s)) s)
   else mret tt);;
  entry ← gets (fun s => pixiPromise s !! cwd);
  match entry with
  | Some promise => await promise
  | None => mret None
  end.

(** *** Project information for an interpreter *)

Record PixiEnvironmentInfo := {
  interpreterPath : string;
  pixi : Pixi;
  pixiVersion : jsval;
  projectInfo : json;
  projectDir : string;
  envName : string
}.

Definition getPixiEnvironmentFromInterpreter (interpreterPath : string)
  : M (option PixiEnvironmentInfo) :=
  let envDir := getCondaEnvironmentFromInterpreterPath interpreterPath in
  let envsDir := dirname (path w) envDir in
  let envName := basename (path w) envDir in
  let pixiDir := dirname (path w) envsDir in
  let projectDir := dirname (path w) pixiDir in
  pixi ← getPixi projectDir;
  match pixi with
  | None =>
      traceWarn ("could not find a pixi interpreter for the interpreter at "
                 +:+ interpreterPath);;
      mret None
  | Some pixi =>
      pixiInfo ← getPixiInfo pixi projectDir;
      let failed :=
        traceWarn ("failed to determine pixi project information for the interpreter at "
                   +:+ interpreterPath);;
        mret None in
      match pixiInfo with
      | None => failed
      | Some info =>
          if truthy info then
            project_info ← lift (member info "project_info");
            match project_info with
            | None => failed
            | Some pinfo =>
                if truthy pinfo then
                  version ← lift (member info "version");
                  mret (Some {| interpreterPath := interpreterPath;
                                pixiVersion := version;
                                projectInfo := pinfo;
                                projectDir := projectDir;
                                envName := envName;
                                pixi := pixi |})
                else failed
            end
          else failed
      end
  end.

End PixiTs.

(** ** The Pixi locator *)

(** *** Async generators

    A generator is run until it completes: the result is what it yielded, in
    order, and how it completed. *)

Definition G (Y A : Type) : Type := State -> list Y * Result A * State.

Definition g_ret {Y A : Type} (a : A) : G Y A := fun s => ([], Ok a, s).

Definition g_bind {Y A B : Type} (g : G Y A) (k : A -> G Y B) : G Y B :=
  fun s =>
    match g s with
    | (ys, Ok a, s') => let '(ys', r, s'') := k a s' in (ys ++ ys', r, s'')
    | (ys, Throw e, s') => (ys, Throw e, s')
    end.

#[global] Instance G_ret {Y : Type} : MRet (G Y) := @g_ret Y.
#[global] Instance G_bind {Y : Type} : MBind (G Y) := fun A B k g => g_bind g k.

(** [yield y] *)
Definition g_yield {Y : Type} (y : Y) : G Y unit := fun s => ([y], Ok tt, s).

(** [await m] inside a generator *)
Definition g_await {Y A : Type} (m : M A) : G Y A :=
  fun s => let '(r, s') := m s in ([], r, s').

(** [try { g } catch (ex) { h ex }] inside a generator *)
Definition g_catch {Y A : Type} (g : G Y A) (h : JsError -> G Y A) : G Y A :=
  fun s =>
    match g s with
    | (ys, Ok a, s') => (ys, Ok a, s')
    | (ys, Throw e, s') => let '(ys', r, s'') := h e s' in (ys ++ ys', r, s'')
    end.

(** Modelled from the spec: [asyncFilter] of common/utils/arrayUtils is not
    among the sources; "filesystem-existence filtering preserves that relative
    order". *)
Definition asyncFilter {A : Type} (items : list A) (predicate : A -> bool) : M (list A) :=
  mret (List.filter predicate items).

(** Modelled from the spec: [chain] and [iterable] of common/utils/async are
    not among the sources.  From the spec, "environment records are yielded
    in the order their prefixes appear" and a failure for one environment
    "never aborts the remaining sequence": the generators are drained one
    after the other, in list order, and one that ends in a failure ends
    alone.  The spec has such a failure logged as well; the sources do not
    show by whom, no trace is written for it here, and nothing proved of the
    enumeration below is about its trace log.  [iterable] only turns the
    iterator into an iterable. *)
Fixpoint chain {Y : Type} (iterators : list (G Y unit)) : G Y unit :=
  match iterators with
  | [] => g_ret tt
  | it :: rest =>
      fun s =>
        let '(ys, _, s') := it s in
        let '(ys', r, s'') := chain rest s' in
        (ys ++ ys', r, s'')
  end.

Definition iterable {Y : Type} (it : G Y unit) : G Y unit := it.

(** Only the tag this locator gives its records. *)
Inductive PythonEnvKind : Type := PythonEnvKind_Pixi.

Record BasicEnvInfo := {
  executablePath : string;
  kind : PythonEnvKind;
  envPath : jsval
}.

Record PixiLocator := { root : string }.

Section PixiLocatorTs.

Context (w : World).

Definition getVirtualEnvDirs (root : string) : M (list jsval) :=
  pixi ← getPixi w root;
  envDirs ← match pixi with
            | Some pixi => getEnvList w pixi
            | None => mret None
            end;
  asyncFilter (default [] envDirs) (pathExists w).

(** the inner [generator] of [doIterEnvs], for one [envDir] *)
Definition generator (envDir : jsval) : G BasicEnvInfo unit :=
  g_await (trace LVerbose [LStr "Searching for Pixi virtual envs in: "; LVal envDir]);;
  filename ← g_await (lift (getCondaInterpreterPath w envDir));
  match filename with
  | Some filename =>
      g_catch
        (g_yield {| executablePath := filename;
                    kind := PythonEnvKind_Pixi;
                    envPath := envDir |};;
         g_await (traceVerbose ("Pixi Virtual Environment: [added] " +:+ filename)))
        (fun ex =>
           g_await (traceError [LStr ("Failed to process environment: " +:+ filename);
                                LErr ex]))
  | None => mret tt
  end.

Definition iterator (root : string) : G BasicEnvInfo unit :=
  envDirs ← g_await (getVirtualEnvDirs root);
  let envGenerators := map generator envDirs in
  iterable (chain envGenerators);;
  g_await (traceVerbose "Finished searching for Pixi envs").

Definition doIterEnvs (this : PixiLocator) : G BasicEnvInfo unit :=
  iterator (root this).

End PixiLocatorTs.

(** ** Sample worlds

    Concrete collaborators, on which the properties below are also run. *)

Definition marker_script : string := "/ext/python_files/get_output_via_markers.py".

(** A world with POSIX paths, the home directory [/home/u] and nothing on
    disk beyond what [present] lists, in which every process is run by
    [run]. *)
Definition posix_world (os : OSType) (test : bool) (setting : Result (option string))
    (present : list string)
    (run : string -> list string -> ShellOptions -> Result ExecutionResult)
    (resolve : jsval -> Result (option string)) : World :=
  {| path := posix;
     getOSType := os;
     getUserHomeDir := Some "/home/u";
     isTestExecution := test;
     getPythonSetting := fun _ => setting;
     pathExistsSync := fun p => existsb (String.eqb p) present;
     pathExists := fun v =>
       match v with
       | Some (JString p) => existsb (String.eqb p) present
       | _ => false
       end;
     isParentPath := fun folder p => String.prefix folder p;
     exec := run;
     getCondaInterpreterPath := resolve;
     OUTPUT_MARKER_SCRIPT := marker_script |}.

(** conda's layout on a POSIX system: [<env>/bin/python], when it is there *)
Definition resolve_bin_python (present : list string) (envDir : jsval) : Result (option string) :=
  match envDir with
  | Some (JString d) =>
      let p := Posix.join [d; "bin"; "python"] in
      if existsb (String.eqb p) present then Ok (Some p) else Ok None
  | _ => Throw TypeError
  end.

(** the process the handle [this] starts for its information *)
Definition info_call (this : Pixi) : ExecCall :=
  {| call_file := command this;
     call_args := ["info"; "--json"];
     call_options := {| opt_cwd := cwd this; throwOnStdErr := false |} |}.

(** The arguments [getRunPythonArgs] is specified to build: "an isolation
    flag is appended only when requested; the target interpreter binary name
    and a fixed bootstrap script path are appended last, in that order". *)
Definition runArguments_as_specified (w : World) (this : Pixi) (manifestPath : string)
    (envName : option string) (isolated : bool) : Prop :=
  let args := getRunPythonArgs w this manifestPath envName isolated in
  (exists rest, args = [command this; "run"; "--manifest-path"; manifestPath] ++ rest) /\
  ((exists before after n, envName = Some n /\
      args = before ++ ["--environment"; n] ++ after)
   <-> isNonDefaultPixiEnvironmentName envName = true) /\
  ((exists before after, args = before ++ ["-I"] ++ after) <-> isolated = true) /\
  (exists before, args = before ++ ["python"; OUTPUT_MARKER_SCRIPT w]).

(** what stands between the manifest path and the interpreter name *)
Definition environment_flag (envName : option string) : list string :=
  match envName with
  | Some n => if String.eqb n "default" then [] else ["--environment"; n]
  | None => []
  end.

(** what stands between the interpreter name and the script *)
Definition isolation_flag (isolated : bool) : list string :=
  if isolated then ["-I"] else [].

(** a launcher under which every process prints [text] and exits cleanly *)
Definition run_prints (text : string) (file : string) (args : list string)
    (options : ShellOptions) : Result ExecutionResult :=
  Ok {| stdout := text; stderr := None |}.

(** a launcher under which no process can be started *)
Definition run_fails (file : string) (args : list string) (options : ShellOptions)
  : Result ExecutionResult :=
  Throw (ExternalError "Command failed").

(** The memo [store] holds nothing a call of [this] with [key] could use:
    no entry, or an expired one. *)
Definition no_live_entry {A : Type} (store : gmap (nat * string) (CacheEntry A))
    (t : Z) (this : Pixi) (key : string) : Prop :=
  match store !! (oid this, key) with
  | Some item => expiry item <= t
  | None => True
  end.

(** the document of the round-trip property *)
Definition round_trip_document : string :=
  Json.text "{'version':'1','platform':'linux','virtual_packages':[],'cache_dir':'/c','auth_dir':'/a','environments_info':[{'name':'default','features':[],'solve_group':'g','environment_size':0,'dependencies':[],'tasks':[],'channels':[],'prefix':'/proj/.pixi/envs/default'}]}".

Definition round_trip_info : json :=
  JObject
    [("version", JString "1"); ("platform", JString "linux");
     ("virtual_packages", JArray []); ("cache_dir", JString "/c");
     ("auth_dir", JString "/a");
     ("environments_info",
      JArray [JObject [("name", JString "default"); ("features", JArray []);
                       ("solve_group", JString "g");
                       ("environment_size", JNumber false 0 0);
                       ("dependencies", JArray []); ("tasks", JArray []);
                       ("channels", JArray []);
                       ("prefix", JString "/proj/.pixi/envs/default")]])].

(** A resolution: [Pixi.pixiPromise.set(cwd, Pixi.locate(cwd))], and the
    outcome of the promise just stored. *)
Definition locate_and_store (w : World) (cwd : string) : M (option Pixi) :=
  fun s =>
    let '(r, s') := locate w cwd s in
    (r, set_pixiPromise (<[cwd := r]> (pixiPromise s')) s').

(** What may happen between two requests for a directory: requests for any
    directory, and time passing. *)
Inductive Event : Type :=
| Request (dir : string)
| Elapse (ms : Z).

Definition step (w : World) (s : State) (ev : Event) : State :=
  match ev with
  | Request dir => snd (getPixi w dir s)
  | Elapse ms => set_now (now s + ms) s
  end.

Definition run (w : World) (events : list Event) (s : State) : State :=
  fold_left (step w) events s.

(** [m] leaves the component [f] of the state as it found it. *)
Definition preserves {A X : Type} (f : State -> X) (m : M A) : Prop :=
  forall s, f (snd (m s)) = f s.

(** ** Reference descriptions for the locator *)

(** The prefix list the tool reports for [root]: what [getVirtualEnvDirs]
    has in [envDirs] before it filters. *)
Definition reported_prefixes (w : World) (root : string) : M (list jsval) :=
  pixi ← getPixi w root;
  envDirs ← match pixi with
            | Some pixi => getEnvList w pixi
            | None => mret None
            end;
  mret (default [] envDirs).

(** the record of one environment directory, if an interpreter is resolved *)
Definition record_of (w : World) (envDir : jsval) : list BasicEnvInfo :=
  match getCondaInterpreterPath w envDir with
  | Ok (Some filename) =>
      [{| executablePath := filename; kind := PythonEnvKind_Pixi; envPath := envDir |}]
  | Ok None | Throw _ => []
  end.

Definition records (w : World) (envDirs : list jsval) : list BasicEnvInfo :=
  flat_map (record_of w) envDirs.

Definition is_error_trace (entry : LogLevel * list LogArg) : bool :=
  match fst entry with
  | LError => true
  | LVerbose | LWarn => false
  end.

(** the error-level traces written so far *)
Definition error_traces (s : State) : list (LogLevel * list LogArg) :=
  List.filter is_error_trace (traceLog s).

(** the trace with which [generator] opens *)
Definition searching (envDir : jsval) (s : State) : State :=
  set_traceLog
    (traceLog s ++ [(LVerbose, [LStr "Searching for Pixi virtual envs in: "; LVal envDir])]) s.

(** a tool reporting two environments, and a resolver that fails on the first *)
Definition two_environments : string :=
  Json.text "{'environments_info':[{'prefix':'/proj/.pixi/envs/a'},{'prefix':'/proj/.pixi/envs/b'}]}".

Definition on_disk_two : list string :=
  ["/proj/.pixi/envs/a"; "/proj/.pixi/envs/b"; "/proj/.pixi/envs/b/bin/python"].

Definition resolve_denied_a (envDir : jsval) : Result (option string) :=
  match envDir with
  | Some (JString "/proj/.pixi/envs/a") => Throw (ExternalError "EACCES")
  | _ => resolve_bin_python on_disk_two envDir
  end.

Definition denied_world : World :=
  posix_world Linux false (Ok (Some "pixi")) on_disk_two (run_prints two_environments)
    resolve_denied_a.

(** a tool reporting three environments, the second of which is gone *)
Definition three_environments : string :=
  Json.text "{'environments_info':[{'prefix':'/proj/.pixi/envs/default'},{'prefix':'/proj/.pixi/envs/py310'},{'prefix':'/proj/.pixi/envs/py311'}]}".

Definition on_disk_three : list string :=
  ["/proj/.pixi/envs/default"; "/proj/.pixi/envs/default/bin/python";
   "/proj/.pixi/envs/py310/bin/python";
   "/proj/.pixi/envs/py311"; "/proj/.pixi/envs/py311/bin/python"].

Definition three_world : World :=
  posix_world Linux false (Ok (Some "pixi")) on_disk_three (run_prints three_environments)
    (resolve_bin_python on_disk_three).

(** ** Reference descriptions for [locate] *)

(** the configured override, when it is set and is not the bare command *)
Definition override (w : World) : option string :=
  match getPythonSetting w "pixiToolPath" with
  | Ok (Some p) =>
      if negb (String.eqb p "") && negb (String.eqb p "pixi") then Some p else None
  | Ok None | Throw _ => None
  end.

(** the install location under the home directory, when it is on disk *)
Definition home_install (w : World) : option string :=
  match getUserHomeDir w with
  | Some home =>
      if negb (String.eqb home "") then
        let p := join (path w) [home; ".pixi"; "bin"; "pixi"] in
        if pathExistsSync w p then Some p else None
      else None
  | None => None
  end.

(** the candidates, in the order [getCandidates] yields them *)
Definition candidates (w : World) : list string :=
  option_list (override w) ++ ["pixi"] ++ option_list (home_install w).

(** what a new handle's [getPixiInfo] gives *)
Definition info_outcome (w : World) (command cwd : string) : Result jsval :=
  match exec w command ["info"; "--json"] {| opt_cwd := cwd; throwOnStdErr := false |} with
  | Ok out =>
      match JSON_parse (stdout out) with
      | Ok info => Ok (Some info)
      | Throw e => Throw e
      end
  | Throw _ => Ok undefined
  end.

(** what a new handle's [getEnvList] gives *)
Definition answer (w : World) (command cwd : string) : Result (option (list jsval)) :=
  match info_outcome w command cwd with
  | Ok info => environment_prefixes info
  | Throw e => Throw e
  end.

(** Probing [cs] in order, the handles numbered from [o]: the first candidate
    that answers with a list, unless a candidate before it throws. *)
Fixpoint first_functioning (w : World) (cwd : string) (cs : list string) (o : nat)
  : Result (option Pixi) :=
  match cs with
  | [] => Ok None
  | c :: rest =>
      match answer w c cwd with
      | Ok (Some _) => Ok (Some {| command := c; cwd := cwd; oid := o |})
      | Ok None => first_functioning w cwd rest (S o)
      | Throw e => Throw e
      end
  end.

(** the processes started on the way *)
Fixpoint probes (w : World) (cwd : string) (cs : list string) (o : nat) : list ExecCall :=
  match cs with
  | [] => []
  | c :: rest =>
      info_call {| command := c; cwd := cwd; oid := o |}
      :: match answer w c cwd with
         | Ok None => probes w cwd rest (S o)
         | Ok (Some _) | Throw _ => []
         end
  end.

(** Handles are numbered as they are made: no memo holds an entry for a
    handle yet to come. *)
Definition handles_numbered (s : State) : Prop :=
  forall (o : nat) (k : string),
    (nextOid s <= o)%nat ->
    infoCache s !! (o, k) = None /\ envListCache s !! (o, k) = None.

(** A world in which the configured tool prints its usage and the tool on
    the search path answers with the round-trip document. *)
Definition run_configured_garbled (file : string) (args : list string)
    (options : ShellOptions) : Result ExecutionResult :=
  if String.eqb file "/opt/tools/pixi"
  then Ok {| stdout := "usage: pixi <command>"; stderr := None |}
  else if String.eqb file "pixi"
  then Ok {| stdout := round_trip_document; stderr := None |}
  else Throw (ExternalError "ENOENT").

Definition garbled_override_world : World :=
  posix_world Linux false (Ok (Some "/opt/tools/pixi")) [] run_configured_garbled
    (resolve_bin_python []).

(** a stage of [getCandidates] that computes [c] and at most writes a trace *)
Definition stage_gives (stage : M (option string)) (c : option string) : Prop :=
  forall s,
    fst (stage s) = Ok c
    /\ execLog (snd (stage s)) = execLog s
    /\ nextOid (snd (stage s)) = nextOid s
    /\ infoCache (snd (stage s)) = infoCache s
    /\ envListCache (snd (stage s)) = envListCache s
    /\ now (snd (stage s)) = now s.

(** ** The unit tests' launcher

    [makeExecHandler] of the locator's unit tests: it checks the executable
    and the working directory it is asked for, and answers [info --json] with
    the document of the project the directory belongs to.  Of the projects of
    [projectDirs] only the non-windows one is kept here, with its one
    environment, and the error texts are shortened. *)

Definition TEST_LAYOUT_ROOT : string := "/layout".

Definition textPixiDir : string := Posix.join [TEST_LAYOUT_ROOT; "pixi"].

Definition nonWindows_path : string := Posix.join [textPixiDir; "non-windows"].

Definition nonWindows_info : string :=
  Json.text ("{'environments_info':[{'prefix':'"
             +:+ Posix.join [textPixiDir; "non-windows"; ".pixi"; "envs"; "default"]
             +:+ "'}]}").

Definition makeExecHandler (verify_pixiPath verify_cwd : option string)
    (file : string) (args : list string) (options : ShellOptions)
  : Result ExecutionResult :=
  if match verify_pixiPath with
     | Some pixiPath => negb (String.eqb pixiPath "") && negb (String.eqb file pixiPath)
     | None => false
     end
  then Throw (ExternalError "Command failed: not the correct pixi path")
  else if match verify_cwd with
          | Some dir => negb (String.eqb dir "") && negb (String.eqb (opt_cwd options) dir)
          | None => false
          end
  then Throw (ExternalError "Command failed: not the correct path")
  else
    match args with
    | "info" :: "--json" :: _ =>
        if String.prefix nonWindows_path (opt_cwd options)
        then Ok {| stdout := nonWindows_info; stderr := None |}
        else Throw (ExternalError "Command failed: could not find project")
    | _ => Throw (ExternalError "Command failed: unknown command")
    end.

(** the world of one test: the setting returns [pixiPath], the launcher is
    the handler, and the tests run in test execution *)
Definition test_world (pixiPath : string)
    (run : string -> list string -> ShellOptions -> Result ExecutionResult) : World :=
  posix_world Linux true (Ok (Some pixiPath)) [] run (resolve_bin_python []).

(** a launcher under which only the tool installed under the home directory
    can be started *)
Definition run_home_install_only (file : string) (args : list string)
    (options : ShellOptions) : Result ExecutionResult :=
  if String.eqb file "/home/u/.pixi/bin/pixi"
  then Ok {| stdout := round_trip_document; stderr := None |}
  else Throw (ExternalError "ENOENT").

Definition home_install_world : World :=
  posix_world Linux false (Ok None) ["/home/u/.pixi/bin/pixi"] run_home_install_only
    (resolve_bin_python []).

(** a project with one named environment, as the tool describes it *)
Definition project_document : string :=
  Json.text "{'version':'0.23.0','project_info':{'manifest_path':'/proj/pixi.toml','last_updated':'01-01-2024 00:00:00','version':'0.1.0'},'environments_info':[{'name':'py311','prefix':'/proj/.pixi/envs/py311'}]}".

Definition project_world : World :=
  posix_world Linux false (Ok (Some "pixi")) ["/proj/pixi.toml"] (run_prints project_document)
    (resolve_bin_python []).

(** Every handle in the registry is bound to the directory it is filed
    under. *)
Definition registry_bound (s : State) : Prop :=
  forall (dir : string) (p : Pixi),
    pixiPromise s !! dir = Some (Ok (Some p)) -> cwd p = dir.

(** ** Further reference descriptions *)

(** no separator among the characters of [s] *)
Fixpoint no_slash (s : string) : bool :=
  match s with
  | EmptyString => true
  | String c rest => negb (Posix.is_slash c) && no_slash rest
  end.

(** A directory name a child can be appended to with one separator: not
    empty, and not ending in a separator. *)
Definition plain_directory (d : string) : Prop :=
  d <> EmptyString /\ Posix.last_is_slash d = false.

(** A single path segment: not empty, no separator in it. *)
Definition segment (f : string) : Prop :=
  f <> EmptyString /\ no_slash f = true.

(** The layout the sources rely on:
    [<project>/.pixi/envs/<environment>/bin/python], and without [bin] on the
    Windows family. *)
Definition environment_in (project name : string) : string :=
  project +:+ "/" +:+ ".pixi" +:+ "/" +:+ "envs" +:+ "/" +:+ name.

Definition interpreter_in (os : OSType) (project name : string) : string :=
  if is_windows os
  then environment_in project name +:+ "/" +:+ "python.exe"
  else environment_in project name +:+ "/" +:+ "bin" +:+ "/" +:+ "python".

(** [env.prefix] for an entry [env] other than [null] *)
Definition env_prefix (env : json) : jsval :=
  match env with
  | JObject ms => own_property "prefix" ms
  | JNull | JBool _ | JNumber _ _ _ | JString _ | JArray _ => undefined
  end.

(** [m] only adds to the trace log. *)
Definition grows {A : Type} (m : M A) : Prop :=
  forall s, exists added, traceLog (snd (m s)) = traceLog s ++ added.

(** a process [locate] may start for [dir]: [info --json], run in [dir] *)
Definition probe_of (dir : string) (call : ExecCall) : Prop :=
  call_args call = ["info"; "--json"]
  /\ call_options call = {| opt_cwd := dir; throwOnStdErr := false |}.

(** What may happen in the life of the process, when the setting, the disk
    and the tool may change from one request to the next: each request is
    served in the world of its moment. *)
Inductive Moment : Type :=
| Served (w : World) (dir : string)
| Passed (ms : Z).

Definition serve (s : State) (m : Moment) : State :=
  match m with
  | Served w dir => snd (getPixi w dir s)
  | Passed ms => set_now (now s + ms) s
  end.

Definition history (moments : list Moment) (s : State) : State :=
  fold_left serve moments s.

(** the worlds in which the requests of [moments] were served, in order *)
Definition worlds (moments : list Moment) : list World :=
  flat_map (fun m => match m with
                     | Served w _ => [w]
                     | Passed _ => []
                     end) moments.

(** The handle [p] was found functioning for [dir] in one of the worlds
    [ws]: there its command was a candidate of [locate], and answered for
    [dir] with a list. *)
Definition found_in (ws : list World) (dir : string) (p : Pixi) : Prop :=
  exists w : World,
    In w ws
    /\ In (command p) (candidates w)
    /\ exists l : list jsval, answer w (command p) dir = Ok (Some l).

(** Every handle in the registry is bound to the directory it is filed under
    and was found functioning for it in one of the worlds [ws]. *)
Definition registry_sound (ws : list World) (s : State) : Prop :=
  forall (dir : string) (p : Pixi),
    pixiPromise s !! dir = Some (Ok (Some p)) ->
    cwd p = dir /\ found_in ws dir p.

(** a world in which the setting names a tool that cannot be started, and
    nothing else can be started either *)
Definition moved_world : World :=
  posix_world Linux false (Ok (Some "/opt/b/pixi")) [] run_fails (resolve_bin_python []).

(** ** The other variant of [pixi.ts]

    It has no [getPixiInfo]: [getEnvListCached] runs the tool itself, with
    [throwOnStdErr], hands a launcher failure to [traceVerbose], and reads
    [environments_info] without the optional chaining. *)

Module Earlier.

Section PixiTs.

Context (w : World).

Definition getEnvListCached_body (this : Pixi) (_cwd : string) : M (option (list jsval)) :=
  infoOutput ← catch
    (out ← call_exec w (command this) ["info"; "--json"]
             {| opt_cwd := cwd this; throwOnStdErr := true |};
     mret (Some out))
    (fun err => trace LVerbose [LErr err];; mret None);
  match infoOutput with
  | None => mret None
  | Some out =>
      pixiInfo ← lift (JSON_parse (stdout out));
      environments_info ← lift (member pixiInfo "environments_info");
      prefixes ← lift (array_map environments_info (fun env => member env "prefix"));
      mret (Some prefixes)
  end.

Definition getEnvListCached (this : Pixi) (_cwd : string) : M (option (list jsval)) :=
  cache 30000 true 10000 envListCache set_envListCache this _cwd
    (getEnvListCached_body this _cwd).

Definition getEnvList (this : Pixi) : M (option (list jsval)) :=
  getEnvListCached this (cwd this).

End PixiTs.

End Earlier.

(** a launcher for which the document is [null] *)
Definition null_world : World :=
  posix_world Linux false (Ok None) [] (run_prints "null") (resolve_bin_python []).

(** * Properties *)

(** ** Node's [path] and [JSON.parse] on examples *)

Example posix_dirname_file : Posix.dirname "/proj/.pixi/envs/default/bin/python" = "/proj/.pixi/envs/default/bin".
Proof. reflexivity. Qed.

Example posix_dirname_trailing : Posix.dirname "/a/b//" = "/a".
Proof. reflexivity. Qed.

Example posix_dirname_root : Posix.dirname "/" = "/" /\ Posix.dirname "//a" = "//" /\ Posix.dirname "a" = ".".
Proof. repeat split; reflexivity. Qed.

Example posix_basename_env : Posix.basename "/proj/.pixi/envs/py311/" = "py311".
Proof. reflexivity. Qed.

Example posix_join_home : Posix.join ["/home/u"; ".pixi"; "bin"; "pixi"] = "/home/u/.pixi/bin/pixi".
Proof. reflexivity. Qed.

Example posix_join_dots : Posix.join ["a/../.."; "b/"; "./c/"] = "../b/c/".
Proof. reflexivity. Qed.

Example parse_scalars :
  Json.parse " [1, -0.50e+3, true, null, 'a\né'] " = None /\
  Json.parse (Json.text " [1, -0.50e+3, true, null, 'a\né😀'] ")
  = Some (JArray [JNumber false 1 0; JNumber true 50 1; JBool true; JNull;
                  JString (String "a" (String "010" (string_of_list_ascii
                    (map Json.byte [195; 169; 240; 159; 152; 128]%N))))]).
Proof. split; vm_compute; reflexivity. Qed.

Example parse_unicode_escapes :
  Json.parse (Json.text "'\u00e9\ud83d\ude00\ud83dx\/'")
  = Some (JString (string_of_list_ascii
            (map Json.byte [195; 169; 240; 159; 152; 128; 237; 160; 189; 120; 47]%N))).
Proof. vm_compute; reflexivity. Qed.

Example parse_rejects :
  Json.parse "" = None /\ Json.parse "not json" = None /\ Json.parse "01" = None /\
  Json.parse "[1,]" = None /\ Json.parse "{} x" = None /\ Json.parse (Json.text "{'a':1,}") = None.
Proof. repeat split; vm_compute; reflexivity. Qed.

Example parse_nested :
  Json.parse (Json.text "{'a':{'b':[[],{}]},'a':2}")
  = Some (JObject [("a", JObject [("b", JArray [JArray []; JObject []])]);
                   ("a", JNumber false 2 0)]).
Proof. vm_compute; reflexivity. Qed.

(** ** [JSON.parse] never runs out of fuel *)

Lemma skip_ws_le (s : list ascii) : (length (Json.skip_ws s) <= length s)%nat.
Proof.
  induction s as [| c s IH]; simpl; [lia |].
  destruct (Json.is_ws c); simpl; lia.
Qed.

Lemma digits_length (s : list ascii) :
  length s = (length (fst (Json.digits s)) + length (snd (Json.digits s)))%nat.
Proof.
  induction s as [| c s IH]; simpl; [reflexivity |].
  destruct (Json.digit_val c); [| reflexivity].
  destruct (Json.digits s) as [ds rest]. simpl in *. lia.
Qed.

Lemma lex_fraction_rest (s : list ascii) :
  match Json.lex_fraction s with
  | Json.POk _ r => (length r <= length s)%nat
  | Json.PSyntax => True
  | Json.PFuel => False
  end.
Proof.
  unfold Json.lex_fraction. destruct s as [| c r]; simpl; [lia |].
  destruct (Ascii.eqb c "."); simpl; [| lia].
  pose proof (digits_length r) as Hlen.
  destruct (Json.digits r) as [[| d ds] rest]; simpl in *; [exact I | lia].
Qed.

Lemma exponent_digits_rest (sign : Z) (s : list ascii) :
  match Json.exponent_digits sign s with
  | Json.POk _ r => (length r <= length s)%nat
  | Json.PSyntax => True
  | Json.PFuel => False
  end.
Proof.
  unfold Json.exponent_digits. pose proof (digits_length s) as Hlen.
  destruct (Json.digits s) as [[| d ds] rest]; simpl in *; [exact I | lia].
Qed.

Lemma lex_exponent_rest (s : list ascii) :
  match Json.lex_exponent s with
  | Json.POk _ r => (length r <= length s)%nat
  | Json.PSyntax => True
  | Json.PFuel => False
  end.
Proof.
  unfold Json.lex_exponent. destruct s as [| c r]; [simpl; lia |].
  destruct (Ascii.eqb c "e" || Ascii.eqb c "E"); [| simpl; lia].
  destruct r as [| x r']; [exact I |].
  destruct (Ascii.eqb x "-"); [| destruct (Ascii.eqb x "+")].
  - pose proof (exponent_digits_rest (-1) r') as H.
    destruct (Json.exponent_digits (-1) r'); simpl in *; [lia | exact I | exact H].
  - pose proof (exponent_digits_rest 1 r') as H.
    destruct (Json.exponent_digits 1 r'); simpl in *; [lia | exact I | exact H].
  - pose proof (exponent_digits_rest 1 (x :: r')) as H.
    destruct (Json.exponent_digits 1 (x :: r')); simpl in *; [lia | exact I | exact H].
Qed.

Lemma number_tail_rest (neg : bool) (int : list N) (s : list ascii) :
  match Json.number_tail neg int s with
  | Json.POk _ r => (length r <= length s)%nat
  | Json.PSyntax => True
  | Json.PFuel => False
  end.
Proof.
  unfold Json.number_tail.
  pose proof (lex_fraction_rest s) as Hf.
  destruct (Json.lex_fraction s) as [frac s' | |]; [| exact I | exact Hf].
  pose proof (lex_exponent_rest s') as He.
  destruct (Json.lex_exponent s') as [e rest | |]; [lia | exact I | exact He].
Qed.

Lemma unsigned_number_rest (neg : bool) (s : list ascii) :
  match Json.unsigned_number neg s with
  | Json.POk _ r => (length r < length s)%nat
  | Json.PSyntax => True
  | Json.PFuel => False
  end.
Proof.
  unfold Json.unsigned_number. pose proof (digits_length s) as Hlen.
  destruct (Json.digits s) as [[| d ds] rest]; [exact I |]. simpl in Hlen.
  destruct (N.eqb d 0).
  - pose proof (number_tail_rest neg [d] (skipn 1 s)) as H.
    destruct (Json.number_tail neg [d] (skipn 1 s)); [| exact I | exact H].
    destruct s; simpl in *; rewrite ?drop_0 in *; lia.
  - pose proof (number_tail_rest neg (d :: ds) rest) as H.
    destruct (Json.number_tail neg (d :: ds) rest); [lia | exact I | exact H].
Qed.

Lemma lex_number_rest (s : list ascii) :
  match Json.lex_number s with
  | Json.POk _ r => (length r < length s)%nat
  | Json.PSyntax => True
  | Json.PFuel => False
  end.
Proof.
  unfold Json.lex_number. destruct s as [| c r]; [exact I |].
  destruct (Ascii.eqb c "-").
  - pose proof (unsigned_number_rest true r) as H.
    destruct (Json.unsigned_number true r); simpl in *; [lia | exact I | exact H].
  - apply unsigned_number_rest.
Qed.

Lemma lex_string_rest (n : nat) :
  forall (s acc : list ascii) (hi : option N),
    (length s <= n)%nat ->
    match Json.lex_string s acc hi with
    | Json.POk _ r => (length r < length s)%nat
    | Json.PSyntax => True
    | Json.PFuel => False
    end.
Proof.
  induction n as [| n IH]; intros s acc hi Hlen.
  - destruct s; [exact I | simpl in Hlen; lia].
  - assert (Hrec : forall (r a : list ascii) (h : option N),
               (length r < length s)%nat ->
               match Json.lex_string r a h with
               | Json.POk _ r' => (length r' < length s)%nat
               | Json.PSyntax => True
               | Json.PFuel => False
               end).
    { intros r a h Hr. pose proof (IH r a h ltac:(lia)) as H.
      destruct (Json.lex_string r a h); [lia | exact I | exact H]. }
    destruct s as [| c r]; [exact I |]. simpl.
    destruct (Ascii.eqb c Json.quote); [simpl; lia |].
    destruct (Ascii.eqb c Json.backslash).
    + destruct r as [| e r1]; [exact I |].
      destruct (Ascii.eqb e "u").
      * destruct r1 as [| h1 [| h2 [| h3 [| h4 r2]]]]; try exact I.
        destruct (Json.hex4 h1 h2 h3 h4) as [cu|]; [| exact I].
        destruct hi as [h|].
        -- destruct (Json.is_low cu); [apply Hrec; simpl; lia |].
           destruct (Json.is_high cu); apply Hrec; simpl; lia.
        -- destruct (Json.is_high cu); apply Hrec; simpl; lia.
      * destruct (Json.simple_escape e); [apply Hrec; simpl; lia | exact I].
    + destruct (N_of_ascii c <? 32)%N; [exact I | apply Hrec; simpl; lia].
Qed.

Lemma strip_prefix_length (p s r : list ascii) :
  Json.strip_prefix p s = Some r -> length s = (length p + length r)%nat.
Proof.
  revert s. induction p as [| a p IH]; intros s H; simpl in H.
  - inversion H. reflexivity.
  - destruct s as [| b s]; [discriminate |].
    destruct (Ascii.eqb a b); [| discriminate].
    simpl. rewrite (IH s H). reflexivity.
Qed.

Lemma lex_literal_rest (word : string) (v : json) (s : list ascii) :
  (0 < String.length word)%nat ->
  match Json.lex_literal word v s with
  | Json.POk _ r => (length r < length s)%nat
  | Json.PSyntax => True
  | Json.PFuel => False
  end.
Proof.
  intros Hword. unfold Json.lex_literal.
  destruct (Json.strip_prefix (list_ascii_of_string word) s) as [r|] eqn:Hstrip; [| exact I].
  apply strip_prefix_length in Hstrip.
  assert (Hl : length (list_ascii_of_string word) = String.length word).
  { clear. induction word; simpl; congruence. }
  lia.
Qed.

#[local] Arguments Json.lex_number : simpl never.
#[local] Arguments Json.lex_literal : simpl never.

(** With [fuel] units, the parser either ends, on a shorter rest when it
    succeeds, or had too few units for its input. *)
Lemma parse_fuel (fuel : nat) :
  forall s : list ascii,
    match Json.parse_value fuel s with
    | Json.POk _ r => (length r < length s)%nat
    | Json.PSyntax => True
    | Json.PFuel => (fuel < 2 * length s + 1)%nat
    end
    /\ (forall acc,
          match Json.parse_elements fuel s acc with
          | Json.POk _ r => (length r < length s)%nat
          | Json.PSyntax => True
          | Json.PFuel => (fuel < 2 * length s + 2)%nat
          end)
    /\ (forall acc,
          match Json.parse_members fuel s acc with
          | Json.POk _ r => (length r < length s)%nat
          | Json.PSyntax => True
          | Json.PFuel => (fuel < 2 * length s + 2)%nat
          end).
Proof.
  induction fuel as [| f IH]; intros s.
  - simpl. repeat split; intros; lia.
  - assert (IHv := fun s => proj1 (IH s)).
    assert (IHe := fun s => proj1 (proj2 (IH s))).
    assert (IHm := fun s => proj2 (proj2 (IH s))).
    clear IH. split; [| split].
    + (* parse_value *)
      simpl. pose proof (skip_ws_le s) as Hs.
      destruct (Json.skip_ws s) as [| c r]; [exact I |]. simpl in Hs.
      destruct (Ascii.eqb c "{").
      { pose proof (skip_ws_le r) as Hr.
        destruct (Json.skip_ws r) as [| c' r']; [exact I |]. simpl in Hr.
        destruct (Ascii.eqb c' "}"); [lia |].
        pose proof (IHm (c' :: r') []) as H.
        destruct (Json.parse_members f (c' :: r') []); simpl in *; [lia | exact I | lia]. }
      destruct (Ascii.eqb c "[").
      { pose proof (skip_ws_le r) as Hr.
        destruct (Json.skip_ws r) as [| c' r']; [exact I |]. simpl in Hr.
        destruct (Ascii.eqb c' "]"); [lia |].
        pose proof (IHe (c' :: r') []) as H.
        destruct (Json.parse_elements f (c' :: r') []); simpl in *; [lia | exact I | lia]. }
      destruct (Ascii.eqb c Json.quote).
      { pose proof (lex_string_rest (length r) r [] None ltac:(lia)) as H.
        destruct (Json.lex_string r [] None); [lia | exact I | destruct H]. }
      destruct (Ascii.eqb c "t").
      { pose proof (lex_literal_rest "true" (JBool true) (c :: r) ltac:(simpl; lia)) as H.
        destruct (Json.lex_literal "true" (JBool true) (c :: r));
          simpl in *; [lia | exact I | destruct H]. }
      destruct (Ascii.eqb c "f").
      { pose proof (lex_literal_rest "false" (JBool false) (c :: r) ltac:(simpl; lia)) as H.
        destruct (Json.lex_literal "false" (JBool false) (c :: r));
          simpl in *; [lia | exact I | destruct H]. }
      destruct (Ascii.eqb c "n").
      { pose proof (lex_literal_rest "null" JNull (c :: r) ltac:(simpl; lia)) as H.
        destruct (Json.lex_literal "null" JNull (c :: r));
          simpl in *; [lia | exact I | destruct H]. }
      pose proof (lex_number_rest (c :: r)) as H.
      destruct (Json.lex_number (c :: r)); simpl in *; [lia | exact I | destruct H].
    + (* parse_elements *)
      intros acc. simpl.
      pose proof (IHv s) as Hv.
      destruct (Json.parse_value f s) as [v r | |]; [| exact I | lia].
      pose proof (skip_ws_le r) as Hr.
      destruct (Json.skip_ws r) as [| c r']; [exact I |]. simpl in Hr.
      destruct (Ascii.eqb c ",").
      { pose proof (IHe r' (v :: acc)) as H.
        destruct (Json.parse_elements f r' (v :: acc)); [lia | exact I | lia]. }
      destruct (Ascii.eqb c "]"); [lia | exact I].
    + (* parse_members *)
      intros acc. simpl. pose proof (skip_ws_le s) as Hs.
      destruct (Json.skip_ws s) as [| q r]; [exact I |]. simpl in Hs.
      destruct (Ascii.eqb q Json.quote); [| exact I].
      pose proof (lex_string_rest (length r) r [] None ltac:(lia)) as Hk.
      destruct (Json.lex_string r [] None) as [k r1 | |]; [| exact I | destruct Hk].
      pose proof (skip_ws_le r1) as Hr1.
      destruct (Json.skip_ws r1) as [| c r2]; [exact I |]. simpl in Hr1.
      destruct (Ascii.eqb c ":"); [| exact I].
      pose proof (IHv r2) as Hv.
      destruct (Json.parse_value f r2) as [v r3 | |]; [| exact I | lia].
      pose proof (skip_ws_le r3) as Hr3.
      destruct (Json.skip_ws r3) as [| c' r4]; [exact I |]. simpl in Hr3.
      destruct (Ascii.eqb c' ",").
      { pose proof (IHm r4 ((k, v) :: acc)) as H.
        destruct (Json.parse_members f r4 ((k, v) :: acc)); [lia | exact I | lia]. }
      destruct (Ascii.eqb c' "}"); [lia | exact I].
Qed.

(** [JSON.parse] is given enough fuel: when it refuses a text, the grammar
    does. *)
Theorem parse_never_out_of_fuel (text : string) :
  Json.parse_value (Json.enough_fuel (list_ascii_of_string text)) (list_ascii_of_string text)
  <> Json.PFuel.
Proof.
  intros H.
  pose proof (proj1 (parse_fuel (Json.enough_fuel (list_ascii_of_string text))
                       (list_ascii_of_string text))) as Hfuel.
  rewrite H in Hfuel. unfold Json.enough_fuel in Hfuel. lia.
Qed.

(** ** Truthiness *)

Example falsy_values :
  map truthy [JNull; JBool false; JString EmptyString; JNumber false 0 0;
              JNumber true 0 3; JNumber false 1 (-400)]
  = [false; false; false; false; false; false].
Proof. vm_compute. reflexivity. Qed.

Example truthy_values :
  map truthy [JBool true; JString "0"; JNumber false 5 (-324); JArray []; JObject []]
  = [true; true; true; true; true].
Proof. vm_compute. reflexivity. Qed.

(** ** Path derivation *)

Example environment_dir_linux :
  getCondaEnvironmentFromInterpreterPath
    (posix_world Linux false (Ok None) [] (fun _ _ _ => Throw (ExternalError "ENOENT"))
       (resolve_bin_python []))
    "/proj/.pixi/envs/default/bin/python"
  = "/proj/.pixi/envs/default".
Proof. reflexivity. Qed.

Example environment_dir_windows :
  getCondaEnvironmentFromInterpreterPath
    (posix_world Windows false (Ok None) [] (fun _ _ _ => Throw (ExternalError "ENOENT"))
       (resolve_bin_python []))
    "/proj/.pixi/envs/default/python.exe"
  = "/proj/.pixi/envs/default".
Proof. reflexivity. Qed.

Example project_dir_linux :
  getPixiProjectFolderFromInterpreter
    (posix_world Linux false (Ok None) [] (fun _ _ _ => Throw (ExternalError "ENOENT"))
       (resolve_bin_python []))
    "/proj/.pixi/envs/default/bin/python"
  = "/proj".
Proof. reflexivity. Qed.

(** A relative or malformed path still gives a directory. *)
Example project_dir_relative :
  getPixiProjectFolderFromInterpreter
    (posix_world Linux false (Ok None) [] (fun _ _ _ => Throw (ExternalError "ENOENT"))
       (resolve_bin_python []))
    "python"
  = ".".
Proof. reflexivity. Qed.

(** C6: the environment directory of an interpreter path [P] is the parent
    directory of [P] on the Windows family and the grandparent of [P] on every
    other family. *)
Theorem environment_dir_parent_or_grandparent (w : World) (P : string) :
  getCondaEnvironmentFromInterpreterPath w P =
  match getOSType w with
  | Windows => dirname (path w) P
  | OtherOS _ => dirname (path w) (dirname (path w) P)
  end.
Proof.
  unfold getCondaEnvironmentFromInterpreterPath.
  destruct (getOSType w); reflexivity.
Qed.

(** C7: the project directory of an interpreter path [P] is three directory
    levels above its environment directory.  The derivation is a function of
    the path alone: it reads no state, and of the world it uses only the
    [path] module and the OS family, so it gives a directory for every [P],
    and the same one wherever those two agree. *)
Theorem project_dir_three_levels_up (w : World) (P : string) :
  getPixiProjectFolderFromInterpreter w P =
    dirname (path w) (dirname (path w) (dirname (path w)
      (getCondaEnvironmentFromInterpreterPath w P)))
  /\ forall w' : World,
       path w' = path w -> getOSType w' = getOSType w ->
       getPixiProjectFolderFromInterpreter w' P = getPixiProjectFolderFromInterpreter w P.
Proof.
  split; [reflexivity |].
  intros w' Hpath Hos.
  unfold getPixiProjectFolderFromInterpreter, getCondaEnvironmentFromInterpreterPath.
  rewrite Hpath, Hos. reflexivity.
Qed.

Lemma project_dir_three_levels_up_witness :
  let w := posix_world Linux false (Ok None) [] (fun _ _ _ => Throw (ExternalError "ENOENT"))
             (resolve_bin_python []) in
  let w' := posix_world Linux true (Ok (Some "/opt/pixi")) ["/proj/pixi.toml"]
              (fun _ _ _ => Ok {| stdout := "{}"; stderr := None |})
              (fun _ => Ok None) in
  getPixiProjectFolderFromInterpreter w "/proj/.pixi/envs/py311/bin/python" = "/proj"
  /\ getPixiProjectFolderFromInterpreter w' "/proj/.pixi/envs/py311/bin/python"
     = getPixiProjectFolderFromInterpreter w "/proj/.pixi/envs/py311/bin/python".
Proof.
  intros w w'.
  destruct (project_dir_three_levels_up w "/proj/.pixi/envs/py311/bin/python") as [H1 H2].
  split.
  - rewrite H1. reflexivity.
  - apply (H2 w'); reflexivity.
Defined.

(** ** Run arguments *)

Example run_arguments_default (w : World) (this : Pixi) (m : string) :
  getRunPythonArgs w this m (Some "default") false
  = [command this; "run"; "--manifest-path"; m; "python"; OUTPUT_MARKER_SCRIPT w].
Proof. reflexivity. Qed.

Example run_arguments_py311 (w : World) (this : Pixi) (m : string) :
  getRunPythonArgs w this m (Some "py311") false
  = [command this; "run"; "--manifest-path"; m; "--environment"; "py311"; "python";
     OUTPUT_MARKER_SCRIPT w].
Proof. reflexivity. Qed.

Example run_arguments_isolated (w : World) (this : Pixi) (m : string) :
  getRunPythonArgs w this m None true
  = [command this; "run"; "--manifest-path"; m; "python"; "-I"; OUTPUT_MARKER_SCRIPT w].
Proof. reflexivity. Qed.

(** C2, as stated, fails: with the isolation flag requested the list ends in
    ["-I"] and the script, so the interpreter name and the script are not its
    last two elements. *)
Lemma run_arguments_isolated_not_last :
  ~ runArguments_as_specified
      (posix_world Linux false (Ok None) [] (fun _ _ _ => Throw (ExternalError "ENOENT"))
         (resolve_bin_python []))
      {| command := "pixi"; cwd := "/proj"; oid := 0 |} "/proj/pixi.toml" None true.
Proof.
  intros (_ & _ & _ & before & Hlast).
  apply (f_equal (@rev string)) in Hlast.
  rewrite rev_app_distr in Hlast.
  vm_compute in Hlast. discriminate Hlast.
Qed.

(** C2, amended: the list is the command, ["run"], the manifest-path flag
    with [m]; then ["--environment"; n] exactly when [n] is present and is not
    ["default"]; then the interpreter name; then the isolation flag exactly
    when it is requested; then the bootstrap script, always last. *)
Theorem run_arguments_layout (w : World) (this : Pixi) (m : string)
    (n : option string) (b : bool) :
  getRunPythonArgs w this m n b =
    [command this; "run"; "--manifest-path"; m] ++ environment_flag n
    ++ ["python"] ++ isolation_flag b ++ [OUTPUT_MARKER_SCRIPT w].
Proof.
  unfold getRunPythonArgs, environment_flag, isolation_flag, isNonDefaultPixiEnvironmentName.
  destruct n as [n|]; [destruct (String.eqb n "default") |]; destruct b; reflexivity.
Qed.

(** ** The accessors of a handle *)

Lemma cache_miss {A : Type} (ttl : Z) (cachePromise : bool) (startup : Z)
    (store : State -> gmap (nat * string) (CacheEntry A))
    (set_store : gmap (nat * string) (CacheEntry A) -> State -> State)
    (this : Pixi) (key : string) (method : M A) (s : State) :
  no_live_entry (store s) (now s) this key ->
  cache ttl cachePromise startup store set_store this key method s =
    let '(r, s') := method s in
    let item := {| data := r; expiry := now s + ttl |} in
    match r with
    | Ok _ => (r, set_store (<[(oid this, key) := item]> (store s')) s')
    | Throw _ =>
        if cachePromise
        then (r, set_store (<[(oid this, key) := item]> (store s')) s')
        else (r, s')
    end.
Proof.
  unfold no_live_entry, cache. intros Hmiss.
  destruct (store s !! (oid this, key)) as [item|]; [| reflexivity].
  destruct (Z.ltb_spec (now s) (expiry item)); [lia | reflexivity].
Qed.

Lemma cache_hit {A : Type} (ttl : Z) (cachePromise : bool) (startup : Z)
    (store : State -> gmap (nat * string) (CacheEntry A))
    (set_store : gmap (nat * string) (CacheEntry A) -> State -> State)
    (this : Pixi) (key : string) (method : M A) (s : State) (item : CacheEntry A) :
  store s !! (oid this, key) = Some item -> now s < expiry item ->
  cache ttl cachePromise startup store set_store this key method s = (data item, s).
Proof.
  unfold cache. intros -> Hlive.
  destruct (Z.ltb_spec (now s) (expiry item)); [reflexivity | lia].
Qed.

(** What the method under [getPixiInfo] does: one process, in the handle's
    directory, whatever the argument. *)
Lemma getPixiInfo_body_eq (w : World) (this : Pixi) (c : string) (s : State) :
  getPixiInfo_body w this c s =
    let s1 := set_execLog (execLog s ++ [info_call this]) s in
    match exec w (command this) ["info"; "--json"]
            {| opt_cwd := cwd this; throwOnStdErr := false |} with
    | Ok out =>
        match JSON_parse (stdout out) with
        | Ok info => (Ok (Some info), s1)
        | Throw e => (Throw e, s1)
        end
    | Throw err => (Ok undefined, set_traceLog (traceLog s1 ++ [(LError, [LErr err])]) s1)
    end.
Proof.
  unfold getPixiInfo_body, mbind, mret, M_bind, M_ret, bind, catch, call_exec, ret, lift,
    traceError, trace, info_call.
  destruct (exec w _ _ _) as [out|err]; simpl; [| reflexivity].
  destruct (JSON_parse (stdout out)); reflexivity.
Qed.

Lemma round_trip_document_parses : JSON_parse round_trip_document = Ok round_trip_info.
Proof. vm_compute. reflexivity. Qed.

Lemma round_trip_prefixes :
  environment_prefixes (Some round_trip_info) = Ok (Some [str "/proj/.pixi/envs/default"]).
Proof. vm_compute. reflexivity. Qed.

Lemma getPixiInfo_miss (w : World) (this : Pixi) (c : string) (s : State) :
  no_live_entry (infoCache s) (now s) this c ->
  fst (getPixiInfo w this c s) = fst (getPixiInfo_body w this c s).
Proof.
  intros Hmiss. unfold getPixiInfo.
  rewrite (cache_miss _ _ _ infoCache set_infoCache this c _ s Hmiss).
  destruct (getPixiInfo_body w this c s) as [[info|e] s']; reflexivity.
Qed.

Lemma getEnvListCached_miss (w : World) (this : Pixi) (c : string) (s : State) :
  no_live_entry (envListCache s) (now s) this c ->
  fst (getEnvListCached w this c s) =
    match fst (getPixiInfo w this c s) with
    | Ok info => environment_prefixes info
    | Throw e => Throw e
    end.
Proof.
  intros Hmiss. unfold getEnvListCached.
  rewrite (cache_miss _ _ _ envListCache set_envListCache this c _ s Hmiss).
  unfold getEnvListCached_body, mbind, M_bind, bind, lift.
  destruct (getPixiInfo w this c s) as [[info|e] s']; simpl; [| reflexivity].
  destruct (environment_prefixes info); reflexivity.
Qed.

(** A process that cannot be started, or exits with a failure, gives "absent",
    and the error goes to the log. *)
Lemma getPixiInfo_exec_failure (w : World) (this : Pixi) (c : string) (s : State)
    (err : JsError) :
  exec w (command this) ["info"; "--json"]
    {| opt_cwd := cwd this; throwOnStdErr := false |} = Throw err ->
  no_live_entry (infoCache s) (now s) this c ->
  fst (getPixiInfo w this c s) = Ok undefined
  /\ traceLog (snd (getPixiInfo_body w this c s)) = traceLog s ++ [(LError, [LErr err])].
Proof.
  intros Hexec Hmiss. rewrite getPixiInfo_miss by assumption.
  rewrite getPixiInfo_body_eq, Hexec. split; reflexivity.
Qed.

(** C1 fails on the code: output that is not JSON makes [JSON.parse] throw,
    and nothing between it and the caller catches the [SyntaxError]; a
    document without [environments_info] is handed out by [getPixiInfo] as it
    is, and makes [getEnvList] throw a [TypeError]. *)
Theorem accessors_throw_on_unexpected_output :
  let this := {| command := "pixi"; cwd := "/proj"; oid := 0 |} in
  let garbled := posix_world Linux false (Ok None) [] (run_prints "pixi 0.23.0")
                   (resolve_bin_python []) in
  let keyless := posix_world Linux false (Ok None) [] (run_prints "{}")
                   (resolve_bin_python []) in
  fst (getPixiInfo garbled this "/proj" (initial 0)) = Throw SyntaxError
  /\ fst (getEnvList garbled this (initial 0)) = Throw SyntaxError
  /\ fst (getPixiInfo keyless this "/proj" (initial 0)) = Ok (Some (JObject []))
  /\ fst (getEnvList keyless this (initial 0)) = Throw TypeError.
Proof. vm_compute. repeat split; reflexivity. Qed.

(** C9: when the tool prints the round-trip document, the info accessor
    yields the parsed document, and its environment-prefix list is exactly
    [["/proj/.pixi/envs/default"]]. *)
Theorem round_trip_single_prefix (w : World) (this : Pixi) (c : string) (s : State)
    (out : ExecutionResult) :
  exec w (command this) ["info"; "--json"]
    {| opt_cwd := cwd this; throwOnStdErr := false |} = Ok out ->
  stdout out = round_trip_document ->
  no_live_entry (infoCache s) (now s) this c ->
  no_live_entry (envListCache s) (now s) this c ->
  fst (getPixiInfo w this c s) = Ok (Some round_trip_info)
  /\ environment_prefixes (Some round_trip_info) = Ok (Some [str "/proj/.pixi/envs/default"])
  /\ fst (getEnvListCached w this c s) = Ok (Some [str "/proj/.pixi/envs/default"]).
Proof.
  intros Hexec Hout Hinfo Henv.
  assert (Hget : fst (getPixiInfo w this c s) = Ok (Some round_trip_info)).
  { rewrite getPixiInfo_miss by assumption.
    rewrite getPixiInfo_body_eq, Hexec, Hout, round_trip_document_parses. reflexivity. }
  split; [exact Hget |]. split; [exact round_trip_prefixes |].
  rewrite getEnvListCached_miss by assumption.
  rewrite Hget. exact round_trip_prefixes.
Qed.

Lemma round_trip_single_prefix_witness :
  let w := posix_world Linux false (Ok None) [] (run_prints round_trip_document)
             (resolve_bin_python []) in
  let this := {| command := "pixi"; cwd := "/proj"; oid := 0 |} in
  fst (getPixiInfo w this "/proj" (initial 0)) = Ok (Some round_trip_info)
  /\ environment_prefixes (Some round_trip_info) = Ok (Some [str "/proj/.pixi/envs/default"])
  /\ fst (getEnvListCached w this "/proj" (initial 0)) = Ok (Some [str "/proj/.pixi/envs/default"]).
Proof.
  intros w this.
  apply (round_trip_single_prefix w this "/proj" (initial 0)
           {| stdout := round_trip_document; stderr := None |}).
  - reflexivity.
  - reflexivity.
  - vm_compute. exact I.
  - vm_compute. exact I.
Defined.

(** A call of [getPixiInfo] that finds nothing live in the memo: the outcome
    is that of the handle's command in the handle's directory, and it is
    filed under the argument. *)
Lemma getPixiInfo_on_miss (w : World) (this : Pixi) (c : string) (s : State) :
  no_live_entry (infoCache s) (now s) this c ->
  getPixiInfo w this c s
  = (info_outcome w (command this) (cwd this),
     set_infoCache
       (<[(oid this, c) := {| data := info_outcome w (command this) (cwd this);
                              expiry := now s + 1000 |}]> (infoCache s))
       (snd (getPixiInfo_body w this c s))).
Proof.
  intros Hmiss. unfold getPixiInfo.
  rewrite (cache_miss _ _ _ infoCache set_infoCache this c _ s Hmiss).
  rewrite getPixiInfo_body_eq. unfold info_outcome.
  destruct (exec w _ _ _) as [out|err]; [destruct (JSON_parse (stdout out)) |]; reflexivity.
Qed.

Lemma getPixiInfo_body_log (w : World) (this : Pixi) (c : string) (s : State) :
  execLog (snd (getPixiInfo_body w this c s)) = execLog s ++ [info_call this].
Proof.
  rewrite getPixiInfo_body_eq.
  destruct (exec w _ _ _) as [out|err]; [destruct (JSON_parse (stdout out)) |]; reflexivity.
Qed.

(** C10: [getPixiInfo] never uses its argument [c] to run the tool.  The
    method under the memo is the same for every [c].  What a call returns is
    the live memo entry under [c] when there is one, and otherwise the
    information the handle's own command gives in the handle's own directory,
    whatever [c] is; that outcome is then filed under [c].  A call starts at
    most one process, the handle's own command in the handle's own directory,
    and starts it exactly when the memo has no live entry under [c]; and of
    the memo only the entry under [c] can change. *)
Theorem info_runs_in_the_handle_directory (w : World) (this : Pixi) (c : string)
    (s : State) :
  getPixiInfo_body w this c = getPixiInfo_body w this (cwd this)
  /\ fst (getPixiInfo w this c s) =
       match infoCache s !! (oid this, c) with
       | Some item => if now s <? expiry item then data item
                      else info_outcome w (command this) (cwd this)
       | None => info_outcome w (command this) (cwd this)
       end
  /\ infoCache (snd (getPixiInfo w this c s)) !! (oid this, c) =
       match infoCache s !! (oid this, c) with
       | Some item => if now s <? expiry item then Some item
                      else Some {| data := info_outcome w (command this) (cwd this);
                                   expiry := now s + 1000 |}
       | None => Some {| data := info_outcome w (command this) (cwd this);
                         expiry := now s + 1000 |}
       end
  /\ execLog (snd (getPixiInfo w this c s)) =
       match infoCache s !! (oid this, c) with
       | Some item => if now s <? expiry item then execLog s
                      else execLog s ++ [info_call this]
       | None => execLog s ++ [info_call this]
       end
  /\ opt_cwd (call_options (info_call this)) = cwd this
  /\ forall k : nat * string,
       k <> (oid this, c) ->
       infoCache (snd (getPixiInfo w this c s)) !! k = infoCache s !! k.
Proof.
  split; [reflexivity |].
  pose proof (getPixiInfo_on_miss w this c s) as Hmiss.
  pose proof (getPixiInfo_body_log w this c s) as Hlog.
  unfold no_live_entry in Hmiss.
  assert (Hhit : forall item, infoCache s !! (oid this, c) = Some item ->
                              (now s <? expiry item) = true ->
                              getPixiInfo w this c s = (data item, s)).
  { intros item Hitem Hlive. unfold getPixiInfo, cache. rewrite Hitem, Hlive. reflexivity. }
  destruct (infoCache s !! (oid this, c)) as [item|] eqn:Hitem.
  - destruct (Z.ltb_spec (now s) (expiry item)) as [Hlive | Hdead].
    + rewrite (Hhit item eq_refl); [| apply Z.ltb_lt; exact Hlive]. simpl.
      split; [reflexivity |]. split; [exact Hitem |]. repeat split; reflexivity.
    + rewrite (Hmiss Hdead). simpl. split; [reflexivity |].
      split; [apply lookup_insert_eq |]. split; [exact Hlog |]. split; [reflexivity |].
      intros k Hk. apply lookup_insert_ne. congruence.
  - rewrite (Hmiss I). simpl. split; [reflexivity |].
    split; [apply lookup_insert_eq |]. split; [exact Hlog |]. split; [reflexivity |].
    intros k Hk. apply lookup_insert_ne. congruence.
Qed.

Lemma info_runs_in_the_handle_directory_witness :
  let w := test_world "pixi" (makeExecHandler None (Some nonWindows_path)) in
  let this := {| command := "pixi"; cwd := nonWindows_path; oid := 0 |} in
  let s' := snd (getPixiInfo w this "/somewhere/else" (initial 0)) in
  fst (getPixiInfo w this "/somewhere/else" (initial 0))
  = Ok (Some (JObject
                [("environments_info",
                  JArray [JObject
                            [("prefix",
                              JString "/layout/pixi/non-windows/.pixi/envs/default")]])]))
  /\ execLog s' = [info_call this]
  /\ opt_cwd (call_options (info_call this)) = nonWindows_path
  /\ infoCache s' !! (0%nat, nonWindows_path) = None.
Proof.
  intros w this s'.
  destruct (info_runs_in_the_handle_directory w this "/somewhere/else" (initial 0))
    as (_ & Hres & _ & Hlog & Hcwd & Hkeys).
  split; [rewrite Hres; vm_compute; reflexivity |].
  split; [exact Hlog |]. split; [exact Hcwd |].
  unfold s'. rewrite Hkeys; [reflexivity |].
  intros Heq. inversion Heq.
Defined.

(** The argument does not choose the directory: asked about another
    directory, a handle answers for its own; bound to another directory, it
    does not answer for the one it is asked about. *)
Example info_for_the_bound_directory :
  let w := test_world "pixi" (makeExecHandler None (Some nonWindows_path)) in
  fst (getPixiInfo w {| command := "pixi"; cwd := nonWindows_path; oid := 0 |}
         "/somewhere/else" (initial 0))
  = Ok (Some (JObject
                [("environments_info",
                  JArray [JObject
                            [("prefix",
                              JString "/layout/pixi/non-windows/.pixi/envs/default")]])]))
  /\ fst (getPixiInfo w {| command := "pixi"; cwd := "/somewhere/else"; oid := 0 |}
            nonWindows_path (initial 0))
     = Ok undefined.
Proof. vm_compute. split; reflexivity. Qed.

(** ** The registry *)


Section Preservation.

Context {X : Type} (f : State -> X).

Lemma preserves_ret {A : Type} (a : A) : preserves f (mret a).
Proof. intros s. reflexivity. Qed.

Lemma preserves_lift {A : Type} (r : Result A) : preserves f (lift r).
Proof. intros s. reflexivity. Qed.

Lemma preserves_bind {A B : Type} (m : M A) (k : A -> M B) :
  preserves f m -> (forall a, preserves f (k a)) -> preserves f (m ≫= k).
Proof.
  intros Hm Hk s. unfold mbind, M_bind, bind.
  specialize (Hm s). destruct (m s) as [[a|e] s']; simpl in *.
  - rewrite Hk. exact Hm.
  - exact Hm.
Qed.

Lemma preserves_catch {A : Type} (m : M A) (h : JsError -> M A) :
  preserves f m -> (forall e, preserves f (h e)) -> preserves f (catch m h).
Proof.
  intros Hm Hh s. unfold catch.
  specialize (Hm s). destruct (m s) as [[a|e] s']; simpl in *.
  - exact Hm.
  - rewrite Hh. exact Hm.
Qed.

Lemma preserves_cache {A : Type} (ttl : Z) (cachePromise : bool) (startup : Z)
    (store : State -> gmap (nat * string) (CacheEntry A))
    (set_store : gmap (nat * string) (CacheEntry A) -> State -> State)
    (this : Pixi) (key : string) (method : M A) :
  (forall m s, f (set_store m s) = f s) ->
  preserves f method ->
  preserves f (cache ttl cachePromise startup store set_store this key method).
Proof.
  intros Hset Hm s. unfold cache.
  assert (Hmiss : f (snd (let '(r, s') := method s in
                          let item := {| data := r; expiry := now s + ttl |} in
                          match r with
                          | Ok _ => (r, set_store (<[(oid this, key) := item]> (store s')) s')
                          | Throw _ =>
                              if cachePromise
                              then (r, set_store (<[(oid this, key) := item]> (store s')) s')
                              else (r, s')
                          end)) = f s).
  { specialize (Hm s). destruct (method s) as [[a|e] s']; simpl in *.
    - rewrite Hset. exact Hm.
    - destruct cachePromise; simpl; [rewrite Hset |]; exact Hm. }
  destruct (store s !! (oid this, key)) as [item|]; [| exact Hmiss].
  destruct (now s <? expiry item); [reflexivity | exact Hmiss].
Qed.

End Preservation.

(** Only [getPixi] writes the registry. *)
Lemma getPixiInfo_keeps_registry (w : World) (this : Pixi) (c : string) :
  preserves pixiPromise (getPixiInfo w this c).
Proof.
  apply preserves_cache; [reflexivity |].
  intros s. rewrite getPixiInfo_body_eq.
  destruct (exec w _ _ _) as [out|err]; [destruct (JSON_parse (stdout out)) |]; reflexivity.
Qed.

Lemma getEnvList_keeps_registry (w : World) (this : Pixi) :
  preserves pixiPromise (getEnvList w this).
Proof.
  apply preserves_cache; [reflexivity |].
  apply preserves_bind; [apply getPixiInfo_keeps_registry |].
  intros info. apply preserves_lift.
Qed.

Lemma trace_keeps_registry (level : LogLevel) (args : list LogArg) :
  preserves pixiPromise (trace level args).
Proof. intros s. reflexivity. Qed.

Lemma probe_keeps_registry (w : World) (cwd : string) (candidates : list (M (option string))) :
  Forall (preserves pixiPromise) candidates ->
  preserves pixiPromise (probe w cwd candidates).
Proof.
  induction 1 as [| next rest Hnext _ IH]; simpl.
  - apply preserves_bind; [apply trace_keeps_registry |].
    intros _. apply preserves_ret.
  - apply preserves_bind; [exact Hnext |].
    intros [pixiToolPath|]; [| exact IH].
    apply preserves_bind; [apply trace_keeps_registry |]. intros _.
    apply preserves_bind; [intros s; reflexivity |]. intros pixi.
    apply preserves_bind; [apply getEnvList_keeps_registry |].
    intros [virtualenvs|].
    + apply preserves_bind; [apply trace_keeps_registry |].
      intros _. apply preserves_ret.
    + apply preserves_bind; [apply trace_keeps_registry |].
      intros _. exact IH.
Qed.

Lemma getCandidates_keep_registry (w : World) :
  Forall (preserves pixiPromise) (getCandidates w).
Proof.
  unfold getCandidates.
  constructor; [| constructor; [| constructor; [| constructor]]].
  - apply preserves_catch.
    + apply preserves_bind; [apply preserves_lift |]. intros v. apply preserves_ret.
    + intros e. apply preserves_bind; [apply trace_keeps_registry |].
      intros _. apply preserves_ret.
  - apply preserves_ret.
  - apply preserves_ret.
Qed.

Lemma locate_keeps_registry (w : World) (cwd : string) :
  preserves pixiPromise (locate w cwd).
Proof.
  apply preserves_bind; [apply trace_keeps_registry |].
  intros _. apply probe_keeps_registry, getCandidates_keep_registry.
Qed.

(** A request for a directory the registry knows, outside test execution:
    the stored promise is returned and nothing happens. *)
Lemma getPixi_known (w : World) (cwd : string) (s : State) (p : Result (option Pixi)) :
  isTestExecution w = false -> pixiPromise s !! cwd = Some p ->
  getPixi w cwd s = (p, s).
Proof.
  intros Htest Hentry.
  unfold getPixi, mbind, mret, M_bind, M_ret, bind, ret, gets, await, lift. simpl.
  rewrite Hentry, Htest. simpl. rewrite Hentry. reflexivity.
Qed.

(** Any other request resolves. *)
Lemma getPixi_resolves (w : World) (cwd : string) (s : State) :
  isTestExecution w = true \/ pixiPromise s !! cwd = None ->
  getPixi w cwd s = locate_and_store w cwd s.
Proof.
  intros Hcase.
  assert (Hcond : match pixiPromise s !! cwd with None => true | Some _ => false end
                  || isTestExecution w = true).
  { destruct Hcase as [-> | ->]; [apply orb_true_r | reflexivity]. }
  unfold getPixi, locate_and_store, mbind, mret, M_bind, M_ret, bind, ret, gets, await,
    lift, promise_of, modify. simpl.
  rewrite Hcond.
  destruct (locate w cwd s) as [r s']. simpl.
  rewrite lookup_insert_eq. reflexivity.
Qed.

(** Outside test execution an entry, once there, stays what it is. *)
Lemma step_keeps_entry (w : World) (cwd : string) (p : Result (option Pixi))
    (ev : Event) (s : State) :
  isTestExecution w = false -> pixiPromise s !! cwd = Some p ->
  pixiPromise (step w s ev) !! cwd = Some p.
Proof.
  intros Htest Hentry. destruct ev as [dir | ms]; simpl; [| exact Hentry].
  destruct (pixiPromise s !! dir) as [q|] eqn:Hdir.
  - rewrite (getPixi_known w dir s q Htest Hdir). exact Hentry.
  - rewrite getPixi_resolves by (right; exact Hdir).
    unfold locate_and_store.
    pose proof (locate_keeps_registry w dir s) as Hkeep.
    destruct (locate w dir s) as [r s']. simpl in *.
    rewrite lookup_insert_ne by congruence.
    rewrite Hkeep. exact Hentry.
Qed.

Lemma run_keeps_entry (w : World) (cwd : string) (p : Result (option Pixi))
    (events : list Event) (s : State) :
  isTestExecution w = false -> pixiPromise s !! cwd = Some p ->
  pixiPromise (run w events s) !! cwd = Some p.
Proof.
  intros Htest. revert s. induction events as [| ev events IH]; intros s Hentry.
  - exact Hentry.
  - simpl. apply IH. apply step_keeps_entry; assumption.
Qed.

Lemma getPixi_stores_outcome (w : World) (cwd : string) (s : State) :
  pixiPromise (snd (getPixi w cwd s)) !! cwd = Some (fst (getPixi w cwd s)).
Proof.
  destruct (isTestExecution w) eqn:Htest.
  - rewrite getPixi_resolves by (left; exact Htest).
    unfold locate_and_store. destruct (locate w cwd s) as [r s']. simpl.
    apply lookup_insert_eq.
  - destruct (pixiPromise s !! cwd) as [p|] eqn:Hentry.
    + rewrite (getPixi_known w cwd s p Htest Hentry). exact Hentry.
    + rewrite getPixi_resolves by (right; exact Hentry).
      unfold locate_and_store. destruct (locate w cwd s) as [r s']. simpl.
      apply lookup_insert_eq.
Qed.

(** C5: in test execution every request for [cwd] resolves anew.  Outside
    it, a request resolves only when the registry has no entry for [cwd];
    after a first request, whatever requests follow, for whatever directory,
    and however much time passes, the entry for [cwd] is still the outcome of
    that first request, be it a handle, "none found" or a failure, and a
    further request for [cwd] returns it and leaves the whole state, the
    process log included, as it is. *)
Theorem registry_memoizes (w : World) (cwd : string) (s : State) :
  if isTestExecution w then getPixi w cwd s = locate_and_store w cwd s
  else
    match pixiPromise s !! cwd with
    | None => getPixi w cwd s = locate_and_store w cwd s
    | Some p => getPixi w cwd s = (p, s)
    end
    /\ forall events : list Event,
         let later := run w events (snd (getPixi w cwd s)) in
         pixiPromise later !! cwd = Some (fst (getPixi w cwd s))
         /\ getPixi w cwd later = (fst (getPixi w cwd s), later)
         /\ execLog (snd (getPixi w cwd later)) = execLog later.
Proof.
  destruct (isTestExecution w) eqn:Htest.
  - apply getPixi_resolves. left. exact Htest.
  - split.
    + destruct (pixiPromise s !! cwd) as [p|] eqn:Hentry.
      * apply getPixi_known; assumption.
      * apply getPixi_resolves. right. exact Hentry.
    + intros events later.
      assert (Hentry : pixiPromise later !! cwd = Some (fst (getPixi w cwd s))).
      { apply run_keeps_entry; [exact Htest |]. apply getPixi_stores_outcome. }
      assert (Hlater : getPixi w cwd later = (fst (getPixi w cwd s), later)).
      { apply getPixi_known; [exact Htest | exact Hentry]. }
      split; [exact Hentry |]. split; [exact Hlater |]. rewrite Hlater. reflexivity.
Qed.

(** ** Handles and their directories *)

Lemma probe_handle_bound (w : World) (dir : string) (stages : list (M (option string))) :
  forall (s : State) (p : Pixi),
    fst (probe w dir stages s) = Ok (Some p) -> cwd p = dir.
Proof.
  induction stages as [| stage stages IH]; intros s p.
  - simpl. discriminate.
  - simpl. unfold mbind at 1. unfold M_bind, bind.
    destruct (stage s) as [[[pixiToolPath|]|e] s0]; simpl; [| apply IH | discriminate].
    unfold mbind, M_bind, bind, traceVerbose, trace, new_Pixi, mret, M_ret, ret.
    destruct (getEnvList w _ _) as [[[l|]|e] s1]; simpl.
    + intros H. inversion H. reflexivity.
    + apply IH.
    + discriminate.
Qed.

Lemma locate_handle_bound (w : World) (dir : string) (s : State) (p : Pixi) :
  fst (locate w dir s) = Ok (Some p) -> cwd p = dir.
Proof.
  unfold locate, mbind, M_bind, bind, traceVerbose, trace. apply probe_handle_bound.
Qed.

Lemma getPixi_registry_bound (w : World) (dir : string) (s : State) :
  registry_bound s -> registry_bound (snd (getPixi w dir s)).
Proof.
  intros Hbound.
  destruct (isTestExecution w) eqn:Htest; [| destruct (pixiPromise s !! dir) as [q|] eqn:Hdir].
  2: { rewrite (getPixi_known w dir s q Htest Hdir). exact Hbound. }
  all: rewrite getPixi_resolves by (first [left; exact Htest | right; exact Hdir]);
    unfold locate_and_store;
    pose proof (locate_keeps_registry w dir s) as Hkeep;
    pose proof (locate_handle_bound w dir s) as Hloc;
    destruct (locate w dir s) as [r s']; simpl in *;
    intros d p Hp; simpl in Hp;
    destruct (decide (d = dir)) as [-> | Hne];
    [ rewrite lookup_insert_eq in Hp; inversion Hp; subst r; apply Hloc; reflexivity
    | rewrite lookup_insert_ne in Hp by congruence; rewrite Hkeep in Hp;
      apply Hbound; exact Hp ].
Qed.

(** The handle the registry gives for a directory is bound to it: in
    [getPixiEnvironmentFromInterpreter] the directory handed to
    [getPixiInfo] is the handle's own. *)
Lemma getPixi_handle_bound (w : World) (dir : string) (s : State) (p : Pixi) :
  registry_bound s -> fst (getPixi w dir s) = Ok (Some p) -> cwd p = dir.
Proof.
  intros Hbound Hp.
  apply (getPixi_registry_bound w dir s Hbound).
  rewrite getPixi_stores_outcome, Hp. reflexivity.
Qed.

(** ** Enumeration *)

Lemma generator_eq (w : World) (envDir : jsval) (s : State) :
  generator w envDir s =
    match getCondaInterpreterPath w envDir with
    | Ok (Some filename) =>
        ([{| executablePath := filename; kind := PythonEnvKind_Pixi; envPath := envDir |}],
         Ok tt,
         set_traceLog
           (traceLog (searching envDir s)
              ++ [(LVerbose, [LStr ("Pixi Virtual Environment: [added] " +:+ filename)])])
           (searching envDir s))
    | Ok None => ([], Ok tt, searching envDir s)
    | Throw e => ([], Throw e, searching envDir s)
    end.
Proof.
  unfold generator, mbind, mret, G_bind, G_ret, g_bind, g_ret, g_await, g_catch, g_yield,
    lift, trace, traceVerbose, searching.
  simpl.
  destruct (getCondaInterpreterPath w envDir) as [[filename|]|e]; reflexivity.
Qed.

Lemma generator_yields (w : World) (envDir : jsval) (s : State) :
  fst (fst (generator w envDir s)) = record_of w envDir
  /\ error_traces (snd (generator w envDir s)) = error_traces s
  /\ execLog (snd (generator w envDir s)) = execLog s.
Proof.
  rewrite generator_eq. unfold record_of, error_traces, searching.
  destruct (getCondaInterpreterPath w envDir) as [[filename|]|e]; simpl;
    rewrite ?List.filter_app; simpl; rewrite ?app_nil_r; auto.
Qed.

(** Draining the generators of a list of directories. *)
Lemma chain_generators (w : World) (envDirs : list jsval) (s : State) :
  fst (chain (map (generator w) envDirs) s) = (records w envDirs, Ok tt)
  /\ execLog (snd (chain (map (generator w) envDirs) s)) = execLog s.
Proof.
  revert s. induction envDirs as [| d envDirs IH]; intros s.
  - split; reflexivity.
  - simpl.
    destruct (generator_yields w d s) as (Hys & _ & Hlog).
    destruct (generator w d s) as [[ys r] s1]. simpl in Hys, Hlog.
    destruct (IH s1) as (Hrest & Hlog').
    destruct (chain (map (generator w) envDirs) s1) as [[ys' r'] s2].
    simpl in *. inversion Hrest; subst.
    split; congruence.
Qed.

Lemma getVirtualEnvDirs_eq (w : World) (root : string) (s : State) :
  getVirtualEnvDirs w root s =
    match reported_prefixes w root s with
    | (Ok reported, s') => (Ok (List.filter (pathExists w) reported), s')
    | (Throw e, s') => (Throw e, s')
    end.
Proof.
  unfold getVirtualEnvDirs, reported_prefixes, asyncFilter, mbind, mret, M_bind, M_ret,
    bind, ret.
  destruct (getPixi w root s) as [[[pixi|]|e] s1]; simpl; try reflexivity.
  destruct (getEnvList w pixi s1) as [[envDirs|e] s2]; reflexivity.
Qed.

Lemma iterator_eq (w : World) (root : string) (s : State) :
  match getVirtualEnvDirs w root s with
  | (Ok envDirs, s1) =>
      fst (iterator w root s) = (records w envDirs, Ok tt)
      /\ execLog (snd (iterator w root s)) = execLog s1
  | (Throw e, s1) => iterator w root s = ([], Throw e, s1)
  end.
Proof.
  unfold iterator, iterable, mbind, G_bind, g_bind, g_await.
  destruct (getVirtualEnvDirs w root s) as [[envDirs|e] s1]; [| reflexivity].
  destruct (chain_generators w envDirs s1) as (Hys & Hlog).
  destruct (chain (map (generator w) envDirs) s1) as [[ys r] s2].
  simpl in Hys, Hlog. inversion Hys; subst.
  unfold traceVerbose, trace. simpl.
  rewrite !app_nil_r.
  split; [reflexivity | assumption].
Qed.

Lemma records_envPath (w : World) (envDirs : list jsval) :
  map envPath (records w envDirs)
  = List.filter (fun d => match getCondaInterpreterPath w d with
                          | Ok (Some _) => true
                          | _ => false
                          end) envDirs.
Proof.
  unfold records. induction envDirs as [| d envDirs IH]; [reflexivity |].
  simpl. rewrite map_app, IH. unfold record_of.
  destruct (getCondaInterpreterPath w d) as [[filename|]|e]; reflexivity.
Qed.

Lemma filter_sublist {A : Type} (p : A -> bool) (l : list A) : sublist (List.filter p l) l.
Proof.
  induction l as [| x l IH]; simpl.
  - constructor.
  - destruct (p x); [apply sublist_skip | apply sublist_cons]; exact IH.
Qed.

(** C4: with [reported] the prefix list the tool reports for the root, one
    enumeration yields exactly the records of the reported prefixes that exist
    on disk and for which an interpreter is resolved, each as often as it is
    reported and in the order of the report: the yielded environment
    directories are the list [reported] with the other prefixes left out. *)
Theorem enumeration_yields_existing_in_order (w : World) (this : PixiLocator) (s : State) :
  match reported_prefixes w (root this) s with
  | (Ok reported, _) =>
      let yielded := fst (fst (doIterEnvs w this s)) in
      yielded = records w (List.filter (pathExists w) reported)
      /\ snd (fst (doIterEnvs w this s)) = Ok tt
      /\ map envPath yielded
         = List.filter (fun d => pathExists w d
                                 && match getCondaInterpreterPath w d with
                                    | Ok (Some _) => true
                                    | _ => false
                                    end) reported
      /\ sublist (map envPath yielded) reported
  | (Throw e, s1) => doIterEnvs w this s = ([], Throw e, s1)
  end.
Proof.
  unfold doIterEnvs.
  pose proof (iterator_eq w (root this) s) as Hit.
  rewrite getVirtualEnvDirs_eq in Hit.
  destruct (reported_prefixes w (root this) s) as [[reported|e] s1]; [| exact Hit].
  destruct Hit as (Hys & _).
  destruct (iterator w (root this) s) as [[ys r] s2]. simpl in *.
  inversion Hys; subst.
  assert (Hpaths : map envPath (records w (List.filter (pathExists w) reported))
                   = List.filter (fun d => pathExists w d
                                           && match getCondaInterpreterPath w d with
                                              | Ok (Some _) => true
                                              | _ => false
                                              end) reported).
  { rewrite records_envPath. clear.
    induction reported as [| d reported IH]; [reflexivity |]. simpl.
    destruct (pathExists w d); simpl; [| exact IH].
    destruct (getCondaInterpreterPath w d) as [[filename|]|e]; simpl; congruence. }
  repeat split; [exact Hpaths |].
  rewrite Hpaths. apply filter_sublist.
Qed.

(** Three reported prefixes, the second gone from the disk: the first and the
    third are yielded, in that order. *)
Example enumeration_three_one_gone :
  fst (doIterEnvs three_world {| root := "/proj" |} (initial 0))
  = ([{| executablePath := "/proj/.pixi/envs/default/bin/python";
         kind := PythonEnvKind_Pixi; envPath := str "/proj/.pixi/envs/default" |};
      {| executablePath := "/proj/.pixi/envs/py311/bin/python";
         kind := PythonEnvKind_Pixi; envPath := str "/proj/.pixi/envs/py311" |}],
     Ok tt).
Proof. vm_compute. reflexivity. Qed.

(** With [chain] as it is modelled, the enumeration goes on after a generator
    that ends in a failure. *)
Example enumeration_with_failing_resolver :
  fst (doIterEnvs denied_world {| root := "/proj" |} (initial 0))
  = ([{| executablePath := "/proj/.pixi/envs/b/bin/python";
         kind := PythonEnvKind_Pixi; envPath := str "/proj/.pixi/envs/b" |}],
     Ok tt).
Proof. vm_compute. reflexivity. Qed.

(** C8 fails on the code.  The [try] of an environment's generator, whose
    [catch] writes "Failed to process environment" to the error log, encloses
    only the [yield] of a record already resolved; the [await] of the resolver
    stands before it.  A failure of the resolver is therefore neither caught
    nor logged there: the generator yields nothing, writes its opening
    verbose line and no error trace, and ends with the resolver's error. *)
Theorem resolution_failure_leaves_generator (w : World) (envDir : jsval) (e : JsError)
    (s : State) :
  getCondaInterpreterPath w envDir = Throw e ->
  generator w envDir s = ([], Throw e, searching envDir s)
  /\ traceLog (snd (generator w envDir s))
     = traceLog s ++ [(LVerbose, [LStr "Searching for Pixi virtual envs in: "; LVal envDir])]
  /\ error_traces (snd (generator w envDir s)) = error_traces s.
Proof.
  intros Hfail.
  assert (Hgen : generator w envDir s = ([], Throw e, searching envDir s))
    by (rewrite generator_eq, Hfail; reflexivity).
  split; [exact Hgen |]. rewrite Hgen. split; [reflexivity |].
  unfold error_traces, searching. simpl.
  rewrite List.filter_app. simpl. apply app_nil_r.
Qed.

Lemma resolution_failure_leaves_generator_witness :
  let a := str "/proj/.pixi/envs/a" in
  generator denied_world a (initial 0)
  = ([], Throw (ExternalError "EACCES"), searching a (initial 0))
  /\ traceLog (snd (generator denied_world a (initial 0)))
     = [(LVerbose, [LStr "Searching for Pixi virtual envs in: "; LVal a])]
  /\ error_traces (snd (generator denied_world a (initial 0))) = [].
Proof.
  intros a.
  exact (resolution_failure_leaves_generator denied_world a (ExternalError "EACCES")
           (initial 0) eq_refl).
Defined.

(** Where the resolver answers, the same generator yields the record inside
    its [try]. *)
Example generator_yields_resolved :
  fst (generator denied_world (str "/proj/.pixi/envs/b") (initial 0))
  = ([{| executablePath := "/proj/.pixi/envs/b/bin/python";
         kind := PythonEnvKind_Pixi; envPath := str "/proj/.pixi/envs/b" |}],
     Ok tt).
Proof. vm_compute. reflexivity. Qed.

#[local] Arguments environment_prefixes : simpl never.

Lemma getEnvList_fresh (w : World) (this : Pixi) (s : State) :
  no_live_entry (infoCache s) (now s) this (cwd this) ->
  no_live_entry (envListCache s) (now s) this (cwd this) ->
  let '(r, s') := getEnvList w this s in
  r = answer w (command this) (cwd this)
  /\ execLog s' = execLog s ++ [info_call this]
  /\ nextOid s' = nextOid s
  /\ forall (o : nat) (k : string),
       o <> oid this ->
       infoCache s' !! (o, k) = infoCache s !! (o, k)
       /\ envListCache s' !! (o, k) = envListCache s !! (o, k).
Proof.
  intros Hinfo Henv.
  unfold getEnvList, getEnvListCached.
  rewrite (cache_miss _ _ _ envListCache set_envListCache this (cwd this) _ s Henv).
  unfold getEnvListCached_body, mbind, M_bind, bind, lift, getPixiInfo.
  rewrite (cache_miss _ _ _ infoCache set_infoCache this (cwd this) _ s Hinfo).
  rewrite getPixiInfo_body_eq.
  unfold answer, info_outcome.
  destruct (exec w _ _ _) as [out|err]; simpl;
    [destruct (JSON_parse (stdout out)) as [info|e]; simpl;
       [destruct (environment_prefixes (Some info)) as [l|e]; simpl |] |];
    (split; [reflexivity |]; split; [reflexivity |]; split; [reflexivity |];
     intros o k Ho; split; rewrite ?lookup_insert_ne by congruence; reflexivity).
Qed.


Lemma custom_candidate_gives (w : World) : stage_gives (custom_candidate w) (override w).
Proof.
  intros s. unfold custom_candidate, override, catch, mbind, mret, M_bind, M_ret, bind, ret,
    lift, traceError, trace.
  destruct (getPythonSetting w "pixiToolPath") as [[p|]|e]; simpl; repeat split; reflexivity.
Qed.

Lemma bare_candidate_gives : stage_gives bare_candidate (Some "pixi").
Proof. intros s. repeat split; reflexivity. Qed.

Lemma home_candidate_gives (w : World) : stage_gives (home_candidate w) (home_install w).
Proof. intros s. repeat split; reflexivity. Qed.

Lemma getCandidates_give (w : World) :
  Forall2 stage_gives (getCandidates w) [override w; Some "pixi"; home_install w].
Proof.
  unfold getCandidates.
  constructor; [apply custom_candidate_gives |].
  constructor; [apply bare_candidate_gives |].
  constructor; [apply home_candidate_gives | constructor].
Qed.

Lemma candidates_eq (w : World) :
  omap id [override w; Some "pixi"; home_install w] = candidates w.
Proof.
  unfold candidates. destruct (override w), (home_install w); reflexivity.
Qed.

Lemma handles_numbered_initial (t : Z) : handles_numbered (initial t).
Proof. intros o k _. split; apply lookup_empty. Qed.

(** Probing with a handle just made. *)
Lemma new_handle_probe (w : World) (p dir : string) (entry : LogLevel * list LogArg)
    (s : State) :
  handles_numbered s ->
  let pixi := {| command := p; cwd := dir; oid := nextOid s |} in
  let '(r, s') := getEnvList w pixi
                    (set_nextOid (S (nextOid s)) (set_traceLog (traceLog s ++ [entry]) s)) in
  r = answer w p dir
  /\ execLog s' = execLog s ++ [info_call pixi]
  /\ nextOid s' = S (nextOid s)
  /\ handles_numbered s'.
Proof.
  intros Hwf pixi.
  pose proof (getEnvList_fresh w pixi
                (set_nextOid (S (nextOid s)) (set_traceLog (traceLog s ++ [entry]) s)))
    as Hfresh.
  destruct (getEnvList w pixi _) as [r s'].
  destruct Hfresh as (Hr & Hlog & Hoid & Hother).
  - unfold no_live_entry. simpl.
    destruct (Hwf (nextOid s) dir) as [-> _]; [lia | exact I].
  - unfold no_live_entry. simpl.
    destruct (Hwf (nextOid s) dir) as [_ ->]; [lia | exact I].
  - simpl in *.
    split; [exact Hr |]. split; [exact Hlog |]. split; [exact Hoid |].
    intros o k Ho. rewrite Hoid in Ho.
    destruct (Hother o k) as [Hi He]; [lia |].
    rewrite Hi, He. apply Hwf. lia.
Qed.

Lemma probe_first_functioning (w : World) (dir : string)
    (stages : list (M (option string))) (cs : list (option string)) :
  Forall2 stage_gives stages cs ->
  forall s : State,
    handles_numbered s ->
    let '(r, s') := probe w dir stages s in
    r = first_functioning w dir (omap id cs) (nextOid s)
    /\ execLog s' = execLog s ++ probes w dir (omap id cs) (nextOid s)
    /\ handles_numbered s'.
Proof.
  induction 1 as [| stage c stages cs Hstage _ IH]; intros s Hwf.
  - simpl. split; [reflexivity |]. split; [symmetry; apply app_nil_r | exact Hwf].
  - simpl probe. unfold mbind at 1. unfold M_bind, bind.
    destruct (Hstage s) as (Hr & Hlog & Hoid & Hinfo & Henv & _).
    destruct (stage s) as [r0 s0]. simpl in Hr, Hlog, Hoid, Hinfo, Henv. subst r0.
    assert (Hwf0 : handles_numbered s0).
    { intros o k Ho. rewrite Hinfo, Henv. apply Hwf. lia. }
    rewrite <- Hlog, <- Hoid.
    destruct c as [p|]; [| exact (IH s0 Hwf0)].
    change (omap id (Some p :: cs)) with (p :: omap id cs).
    pose proof (new_handle_probe w p dir
                  (LVerbose, [LStr ("Probing pixi binary for " +:+ dir +:+ ": " +:+ p)])
                  s0 Hwf0) as Hprobe.
    unfold traceVerbose, trace, new_Pixi, mbind, M_bind, bind, mret, M_ret, ret.
    cbv zeta in Hprobe.
    change (nextOid (set_traceLog
              (traceLog s0 ++
                 [(LVerbose, [LStr ("Probing pixi binary for " +:+ dir +:+ ": " +:+ p)])]) s0))
      with (nextOid s0).
    destruct (getEnvList w _ _) as [r1 s1].
    destruct Hprobe as (Hr1 & Hlog1 & Hoid1 & Hwf1). subst r1.
    simpl first_functioning. simpl probes.
    destruct (answer w p dir) as [[l|]|e].
    + split; [reflexivity |]. split; [exact Hlog1 | exact Hwf1].
    + specialize (IH (set_traceLog
                        (traceLog s1 ++
                           [(LVerbose, [LStr ("Failed to find pixi for " +:+ dir +:+ ": " +:+ p)])])
                        s1) Hwf1).
      destruct (probe w dir stages _) as [r2 s2].
      simpl in IH. rewrite Hoid1, Hlog1 in IH.
      destruct IH as (Hr2 & Hlog2 & Hwf2).
      split; [exact Hr2 |]. split; [| exact Hwf2].
      rewrite Hlog2, <- app_assoc. reflexivity.
    + split; [reflexivity |]. split; [exact Hlog1 | exact Hwf1].
Qed.

(** What [locate] does, from a state in which handles are numbered as they
    are made: the candidates are probed in their order, each with a handle of
    its own, up to the first that answers with a list or throws. *)
Lemma locate_first_functioning (w : World) (dir : string) (s : State) :
  handles_numbered s ->
  fst (locate w dir s) = first_functioning w dir (candidates w) (nextOid s)
  /\ execLog (snd (locate w dir s)) = execLog s ++ probes w dir (candidates w) (nextOid s)
  /\ handles_numbered (snd (locate w dir s)).
Proof.
  intros Hwf. unfold locate, mbind, M_bind, bind, traceVerbose, trace.
  pose proof (probe_first_functioning w dir _ _ (getCandidates_give w)
                (set_traceLog (traceLog s ++ [(LVerbose, [LStr ("Getting pixi for cwd " +:+ dir)])]) s)
                Hwf) as Hprobe.
  rewrite candidates_eq in Hprobe.
  destruct (probe w dir (getCandidates w) _) as [r s']. exact Hprobe.
Qed.

(** A configured override that answers is taken, and it alone is run. *)
Lemma locate_override_functions (w : World) (dir p : string) (l : list jsval) (s : State) :
  handles_numbered s ->
  override w = Some p ->
  answer w p dir = Ok (Some l) ->
  fst (locate w dir s) = Ok (Some {| command := p; cwd := dir; oid := nextOid s |})
  /\ execLog (snd (locate w dir s))
     = execLog s ++ [info_call {| command := p; cwd := dir; oid := nextOid s |}].
Proof.
  intros Hwf Hover Hans.
  destruct (locate_first_functioning w dir s Hwf) as (Hr & Hlog & _).
  rewrite Hr, Hlog. unfold candidates. rewrite Hover. simpl. rewrite Hans.
  split; reflexivity.
Qed.

(** The three candidates in their order: with no override and no tool on the
    search path, the install under the home directory is probed last, and
    taken. *)
Example locate_falls_back_to_home_install :
  candidates home_install_world = ["pixi"; "/home/u/.pixi/bin/pixi"]
  /\ fst (locate home_install_world "/proj" (initial 0))
     = Ok (Some {| command := "/home/u/.pixi/bin/pixi"; cwd := "/proj"; oid := 1 |})
  /\ map call_file (execLog (snd (locate home_install_world "/proj" (initial 0))))
     = ["pixi"; "/home/u/.pixi/bin/pixi"].
Proof. vm_compute. repeat split; reflexivity. Qed.

(** C3 fails on the code: the configured tool starts but prints no JSON, the
    tool on the search path would answer with a list.  The [SyntaxError] of
    the first probe leaves [locate], and [getPixi] with it; the bare command
    is never run. *)
Theorem locate_aborts_on_unparsable_candidate :
  let w := garbled_override_world in
  candidates w = ["/opt/tools/pixi"; "pixi"]
  /\ answer w "/opt/tools/pixi" "/proj" = Throw SyntaxError
  /\ answer w "pixi" "/proj" = Ok (Some [str "/proj/.pixi/envs/default"])
  /\ fst (locate w "/proj" (initial 0)) = Throw SyntaxError
  /\ map call_file (execLog (snd (locate w "/proj" (initial 0)))) = ["/opt/tools/pixi"]
  /\ fst (getPixi w "/proj" (initial 0)) = Throw SyntaxError.
Proof. vm_compute. repeat split; reflexivity. Qed.

(** ** Project information for an interpreter *)

(** The project of an interpreter, found with one process: the information
    read while the tool was located is still in the memo of its handle. *)
Example project_of_interpreter :
  let r := getPixiEnvironmentFromInterpreter project_world
             "/proj/.pixi/envs/py311/bin/python" (initial 0) in
  fst r = Ok (Some {| interpreterPath := "/proj/.pixi/envs/py311/bin/python";
                      pixi := {| command := "pixi"; cwd := "/proj"; oid := 0 |};
                      pixiVersion := str "0.23.0";
                      projectInfo := JObject [("manifest_path", JString "/proj/pixi.toml");
                                              ("last_updated", JString "01-01-2024 00:00:00");
                                              ("version", JString "0.1.0")];
                      projectDir := "/proj";
                      envName := "py311" |})
  /\ execLog (snd r) = [info_call {| command := "pixi"; cwd := "/proj"; oid := 0 |}]
  /\ isPixiEnvironment project_world "/proj/.pixi/envs/py311/bin/python" = true.
Proof. vm_compute. repeat split; reflexivity. Qed.

(** ** The unit tests of the locator *)

(** 'Return a Pixi instance in an empty directory' *)
Example test_any_path :
  let w := test_world "hatchPath" (makeExecHandler None None) in
  fst (getPixi w nonWindows_path (initial 0))
  = Ok (Some {| command := "hatchPath"; cwd := nonWindows_path; oid := 0 |}).
Proof. vm_compute. reflexivity. Qed.

(** 'When user has specified a valid Pixi path, use it' *)
Example test_configured_path :
  let w := test_world "path/to/pixi/binary"
             (makeExecHandler (Some "path/to/pixi/binary") (Some nonWindows_path)) in
  fst (getPixi w nonWindows_path (initial 0))
  = Ok (Some {| command := "path/to/pixi/binary"; cwd := nonWindows_path; oid := 0 |}).
Proof. vm_compute. reflexivity. Qed.

(** 'When user hasn't specified a path, use Pixi on PATH if available' *)
Example test_bare_command :
  let w := test_world "pixi" (makeExecHandler (Some "pixi") (Some nonWindows_path)) in
  fst (getPixi w nonWindows_path (initial 0))
  = Ok (Some {| command := "pixi"; cwd := nonWindows_path; oid := 0 |}).
Proof. vm_compute. reflexivity. Qed.

(** 'Return undefined if Pixi cannot be found' *)
Example test_not_found :
  let w := test_world "pixi" run_fails in
  fst (getPixi w nonWindows_path (initial 0)) = Ok None.
Proof. vm_compute. reflexivity. Qed.

(** "None found" is remembered: a second request starts no process.  In test
    execution it starts the probing again. *)
Example not_found_is_remembered :
  let w := posix_world Linux false (Ok (Some "pixi")) [] run_fails (resolve_bin_python []) in
  let s1 := snd (getPixi w "/proj" (initial 0)) in
  fst (getPixi w "/proj" (initial 0)) = Ok None
  /\ length (execLog s1) = 1%nat
  /\ getPixi w "/proj" (set_now 86400000 s1) = (Ok None, set_now 86400000 s1).
Proof.
  intros w s1.
  assert (H1 : fst (getPixi w "/proj" (initial 0)) = Ok None) by (vm_compute; reflexivity).
  split; [exact H1 |]. split; [vm_compute; reflexivity |].
  apply getPixi_known; [reflexivity |].
  pose proof (getPixi_stores_outcome w "/proj" (initial 0)) as Hstored.
  rewrite H1 in Hstored. exact Hstored.
Qed.

Example test_execution_resolves_again :
  let w := test_world "pixi" run_fails in
  let s1 := snd (getPixi w "/proj" (initial 0)) in
  length (execLog s1) = 1%nat
  /\ length (execLog (snd (getPixi w "/proj" s1))) = 2%nat.
Proof. vm_compute. split; reflexivity. Qed.

(** ** The layout and its derivation, on POSIX paths *)

Lemma get_no_slash (f : string) (i : nat) :
  no_slash f = true -> (i < String.length f)%nat ->
  exists c, String.get i f = Some c /\ Posix.is_slash c = false.
Proof.
  revert i. induction f as [| a f IH]; intros i Hf Hi; simpl in *; [lia |].
  apply andb_true_iff in Hf. destruct Hf as [Ha Hf].
  destruct i as [| i].
  - exists a. split; [reflexivity |]. destruct (Posix.is_slash a); [discriminate | reflexivity].
  - apply IH; [exact Hf | lia].
Qed.

Lemma get_child (d f : string) (j : nat) :
  String.get (String.length d + S j) (d +:+ "/" +:+ f) = String.get j f.
Proof.
  replace (String.length d + S j)%nat with (S j + String.length d)%nat by lia.
  rewrite <- (String.append_correct2 d ("/" +:+ f) (S j)). reflexivity.
Qed.

Lemma get_separator (d f : string) :
  String.get (String.length d) (d +:+ "/" +:+ f) = Some Posix.slash.
Proof.
  change (String.length d) with (0 + String.length d)%nat.
  rewrite <- (String.append_correct2 d ("/" +:+ f) 0). reflexivity.
Qed.

Lemma append_cons (c : ascii) (a b : string) : String c a +:+ b = String c (a +:+ b).
Proof. reflexivity. Qed.

Lemma string_length_app (a b : string) :
  String.length (a +:+ b) = (String.length a + String.length b)%nat.
Proof.
  induction a as [| c a IH]; [reflexivity |].
  rewrite append_cons. simpl. rewrite IH. reflexivity.
Qed.

Lemma string_app_assoc (a b c : string) : (a +:+ b) +:+ c = a +:+ (b +:+ c).
Proof.
  induction a as [| x a IH]; [reflexivity |].
  rewrite !append_cons, IH. reflexivity.
Qed.

Lemma length_child (d f : string) :
  String.length (d +:+ "/" +:+ f) = (String.length d + S (String.length f))%nat.
Proof. rewrite !string_length_app. reflexivity. Qed.

Lemma substring_all (f : string) : String.substring 0 (String.length f) f = f.
Proof. induction f as [| c f IH]; simpl; [reflexivity | rewrite IH; reflexivity]. Qed.

Lemma substring_prefix (d rest : string) :
  String.substring 0 (String.length d) (d +:+ rest) = d.
Proof.
  induction d as [| c d IH]; [destruct rest; reflexivity |].
  rewrite append_cons. simpl. rewrite IH. reflexivity.
Qed.

Lemma substring_suffix (d f : string) :
  String.substring (String.length d) (String.length f) (d +:+ f) = f.
Proof.
  induction d as [| c d IH]; [apply substring_all |].
  rewrite append_cons. simpl. exact IH.
Qed.

(** Below the child, the scan of [posix.dirname] stops at the separator. *)
Lemma dirname_scan_child (d f : string) (j : nat) :
  d <> EmptyString -> no_slash f = true -> (j <= String.length f)%nat ->
  Posix.dirname_scan (d +:+ "/" +:+ f) (String.length d + j) false
  = Some (String.length d).
Proof.
  intros Hd Hf. induction j as [| j IH]; intros Hj.
  - rewrite Nat.add_0_r. destruct d as [| c d]; [congruence |].
    change (String.length (String c d)) with (S (String.length d)) at 1.
    cbn [Posix.dirname_scan]. unfold Posix.charAt.
    change (S (String.length d)) with (String.length (String c d)).
    rewrite get_separator. reflexivity.
  - replace (String.length d + S j)%nat with (S (String.length d + j)) by lia.
    cbn [Posix.dirname_scan]. unfold Posix.charAt.
    replace (S (String.length d + j)) with (String.length d + S j)%nat by lia.
    rewrite get_child.
    destruct (get_no_slash f j Hf ltac:(lia)) as (c & -> & ->).
    apply IH. lia.
Qed.

Lemma dirname_scan_from_end (d f : string) :
  d <> EmptyString -> segment f ->
  Posix.dirname_scan (d +:+ "/" +:+ f) (String.length d + String.length f) true
  = Some (String.length d).
Proof.
  intros Hd [Hf Hns].
  destruct (String.length f) as [| k] eqn:Hk; [destruct f; [congruence | discriminate Hk] |].
  pose proof (get_child d f k) as Hget.
  destruct (get_no_slash f k Hns ltac:(lia)) as (c & Hc & Hslash).
  rewrite Hc in Hget.
  pose proof (dirname_scan_child d f k Hd Hns ltac:(lia)) as Hscan.
  replace (String.length d + S k)%nat with (S (String.length d + k)) in * by lia.
  cbn [Posix.dirname_scan]. unfold Posix.charAt.
  rewrite Hget, Hslash. exact Hscan.
Qed.

(** [posix.dirname] of a child is the directory it was appended to. *)
Lemma posix_dirname_child (d f : string) :
  plain_directory d -> segment f -> Posix.dirname (d +:+ "/" +:+ f) = d.
Proof.
  intros [Hd Hlast] Hseg. unfold Posix.dirname.
  destruct (String.eqb_spec (d +:+ "/" +:+ f) "") as [Hempty | _].
  { destruct d; [congruence | discriminate Hempty]. }
  rewrite length_child.
  replace (String.length d + S (String.length f) - 1)%nat
    with (String.length d + String.length f)%nat by lia.
  rewrite (dirname_scan_from_end d f Hd Hseg).
  assert (Hroot : (match Posix.charAt (d +:+ "/" +:+ f) 0 with
                   | Some c0 => Posix.is_slash c0
                   | None => false
                   end && Nat.eqb (String.length d) 1) = false).
  { destruct d as [| x [| y d]]; [congruence | | simpl; apply andb_false_r].
    unfold Posix.last_is_slash, Posix.charAt in Hlast. simpl in Hlast.
    unfold Posix.charAt. simpl. rewrite Hlast. reflexivity. }
  rewrite Hroot. apply substring_prefix.
Qed.

Example posix_dirname_child_run :
  Posix.dirname ("/home/u/proj" +:+ "/" +:+ ".pixi") = "/home/u/proj".
Proof. apply posix_dirname_child; split; [discriminate | reflexivity | discriminate | reflexivity]. Qed.

Lemma child_is_plain (d f : string) :
  segment f -> plain_directory (d +:+ "/" +:+ f).
Proof.
  intros [Hf Hns]. split.
  - destruct d; discriminate.
  - unfold Posix.last_is_slash, Posix.charAt. rewrite length_child.
    destruct (String.length f) as [| k] eqn:Hk; [destruct f; [congruence | discriminate Hk] |].
    replace (String.length d + S (S k) - 1)%nat with (String.length d + S k)%nat by lia.
    rewrite get_child.
    destruct (get_no_slash f k Hns ltac:(lia)) as (c & -> & ->). reflexivity.
Qed.

(** Below the child, the scan of [posix.basename] stops after the separator. *)
Lemma basename_scan_child (d f : string) (e : nat) (j : nat) :
  no_slash f = true -> (j <= String.length f)%nat ->
  Posix.basename_scan (d +:+ "/" +:+ f) (String.length d + S j) (Some e) false
  = (S (String.length d), Some e).
Proof.
  intros Hns. induction j as [| j IH]; intros Hj.
  - replace (String.length d + 1)%nat with (S (String.length d)) by lia.
    cbn [Posix.basename_scan]. unfold Posix.charAt.
    rewrite get_separator. reflexivity.
  - pose proof (get_child d f j) as Hget.
    destruct (get_no_slash f j Hns ltac:(lia)) as (c & Hc & Hslash).
    rewrite Hc in Hget.
    replace (String.length d + S (S j))%nat with (S (String.length d + S j)) by lia.
    cbn [Posix.basename_scan]. unfold Posix.charAt.
    rewrite Hget, Hslash. apply IH. lia.
Qed.

(** [posix.basename] of a child is the segment that was appended. *)
Lemma posix_basename_child (d f : string) :
  segment f -> Posix.basename (d +:+ "/" +:+ f) = f.
Proof.
  intros [Hf Hns]. unfold Posix.basename. rewrite length_child.
  destruct (String.length f) as [| k] eqn:Hk; [destruct f; [congruence | discriminate Hk] |].
  pose proof (get_child d f k) as Hget.
  destruct (get_no_slash f k Hns ltac:(lia)) as (c & Hc & Hslash).
  rewrite Hc in Hget.
  replace (String.length d + S (S k))%nat with (S (String.length d + S k)) by lia.
  cbn [Posix.basename_scan]. unfold Posix.charAt.
  rewrite Hget, Hslash.
  rewrite (basename_scan_child d f (S (String.length d + S k)) k Hns ltac:(lia)).
  replace (S (String.length d + S k) - S (String.length d))%nat with (String.length f) by lia.
  replace (S (String.length d)) with (String.length (d +:+ "/"))
    by (rewrite string_length_app; simpl; lia).
  rewrite <- (string_app_assoc d "/" f). apply substring_suffix.
Qed.

Lemma environment_in_children (project name : string) :
  environment_in project name
  = ((project +:+ "/" +:+ ".pixi") +:+ "/" +:+ "envs") +:+ "/" +:+ name.
Proof. unfold environment_in. rewrite !string_app_assoc. reflexivity. Qed.

Lemma literal_segment (f : string) :
  negb (String.eqb f EmptyString) && no_slash f = true -> segment f.
Proof.
  intros H. apply andb_true_iff in H. destruct H as [Hne Hns]. split; [| exact Hns].
  intros ->. discriminate Hne.
Qed.

Lemma posix_project_of_environment (project name : string) :
  plain_directory project -> segment name ->
  Posix.dirname (Posix.dirname (Posix.dirname (environment_in project name))) = project.
Proof.
  intros Hproj Hname. rewrite environment_in_children.
  rewrite posix_dirname_child;
    [| apply child_is_plain, literal_segment; reflexivity | exact Hname].
  rewrite posix_dirname_child;
    [| apply child_is_plain, literal_segment; reflexivity | apply literal_segment; reflexivity].
  apply posix_dirname_child; [exact Hproj | apply literal_segment; reflexivity].
Qed.

Lemma posix_environment_of_interpreter (w : World) (project name : string) :
  path w = posix -> segment name ->
  getCondaEnvironmentFromInterpreterPath w (interpreter_in (getOSType w) project name)
  = environment_in project name.
Proof.
  intros Hpath Hname.
  assert (Henv : plain_directory (environment_in project name)).
  { rewrite environment_in_children. apply child_is_plain. exact Hname. }
  unfold getCondaEnvironmentFromInterpreterPath, interpreter_in. rewrite Hpath.
  destruct (is_windows (getOSType w)); simpl dirname.
  - apply posix_dirname_child; [exact Henv | apply literal_segment; reflexivity].
  - replace (environment_in project name +:+ "/" +:+ "bin" +:+ "/" +:+ "python")
      with ((environment_in project name +:+ "/" +:+ "bin") +:+ "/" +:+ "python")
      by (rewrite !string_app_assoc; reflexivity).
    rewrite posix_dirname_child;
      [| apply child_is_plain, literal_segment; reflexivity | apply literal_segment; reflexivity].
    apply posix_dirname_child; [exact Henv | apply literal_segment; reflexivity].
Qed.

(** X1: on POSIX paths the derivation inverts the layout.  For a project
    directory [project] (not empty, no trailing separator) and an environment
    name [name] (one path segment), the interpreter of that environment, at
    [project/.pixi/envs/name/bin/python] (without [bin] on the Windows
    family), is mapped back to the environment directory
    [project/.pixi/envs/name], to the project directory [project], and its
    environment name to [name]. *)
Theorem layout_is_inverted (w : World) (project name : string) :
  path w = posix -> plain_directory project -> segment name ->
  let P := interpreter_in (getOSType w) project name in
  getCondaEnvironmentFromInterpreterPath w P = environment_in project name
  /\ getPixiProjectFolderFromInterpreter w P = project
  /\ basename (path w) (getCondaEnvironmentFromInterpreterPath w P) = name.
Proof.
  intros Hpath Hproj Hname P.
  pose proof (posix_environment_of_interpreter w project name Hpath Hname) as Henv.
  fold P in Henv. split; [exact Henv |]. split.
  - unfold getPixiProjectFolderFromInterpreter. fold P. rewrite Henv, Hpath.
    apply posix_project_of_environment; assumption.
  - rewrite Henv, Hpath, environment_in_children. apply posix_basename_child. exact Hname.
Qed.

Lemma layout_is_inverted_witness :
  let w := posix_world Linux false (Ok None) [] run_fails (resolve_bin_python []) in
  getCondaEnvironmentFromInterpreterPath w "/home/u/proj/.pixi/envs/py311/bin/python"
  = "/home/u/proj/.pixi/envs/py311"
  /\ getPixiProjectFolderFromInterpreter w "/home/u/proj/.pixi/envs/py311/bin/python"
     = "/home/u/proj"
  /\ basename (path w)
       (getCondaEnvironmentFromInterpreterPath w "/home/u/proj/.pixi/envs/py311/bin/python")
     = "py311".
Proof.
  intros w.
  apply (layout_is_inverted w "/home/u/proj" "py311").
  - reflexivity.
  - split; [discriminate | reflexivity].
  - split; [discriminate | reflexivity].
Defined.

(** ** The prefixes of a document *)

Lemma mapR_prefix (items : list json) (l : list jsval) :
  mapR (fun env => member env "prefix") items = Ok l
  <-> Forall (fun env => env <> JNull) items /\ l = map env_prefix items.
Proof.
  revert l. induction items as [| env items IH]; intros l; simpl.
  - split.
    + intros H. inversion H. split; [constructor | reflexivity].
    + intros [_ ->]. reflexivity.
  - destruct env; simpl;
      try (destruct (mapR (fun env => member env "prefix") items) as [ys|e] eqn:Hrest;
           [ destruct (proj1 (IH ys) eq_refl) as [Hall ->]; split;
             [ intros H; inversion H; split; [constructor; [discriminate | exact Hall] | reflexivity]
             | intros [_ ->]; reflexivity ]
           | split; [discriminate |];
             intros [Hall ->]; inversion Hall; subst;
             assert (Hcontra : Throw e = Ok (map env_prefix items))
               by (apply IH; split; [assumption | reflexivity]);
             discriminate Hcontra ]).
    split; [discriminate |]. intros [Hall _]. inversion Hall; subst. congruence.
Qed.

(** X2: what [pixiInfo?.environments_info.map((env) => env.prefix)] gives
    for a parsed document.  It is absent exactly for the document [null]; it
    is a list exactly when the document is an object whose
    [environments_info] is an array without [null] entries, and then it has
    one element per entry, in order, [undefined] where an entry has no
    [prefix]; every other document makes it throw a [TypeError]. *)
Theorem prefixes_of_document (info : json) :
  (environment_prefixes (Some info) = Ok None <-> info = JNull)
  /\ (forall l : list jsval,
        environment_prefixes (Some info) = Ok (Some l)
        <-> exists ms items,
              info = JObject ms
              /\ own_property "environments_info" ms = Some (JArray items)
              /\ Forall (fun env => env <> JNull) items
              /\ l = map env_prefix items)
  /\ (forall e : JsError, environment_prefixes (Some info) = Throw e -> e = TypeError).
Proof.
  unfold environment_prefixes, array_map.
  destruct info as [| b | neg m e10 | str0 | items0 | ms]; simpl.
  1: { split; [tauto |]. split; [| discriminate].
       intros l. split; [discriminate | intros (ms & items & H & _); discriminate H]. }
  1-4: split; [split; discriminate |]; split;
       [ intros l; split; [discriminate | intros (ms & items & H & _); discriminate H]
       | intros e H; inversion H; reflexivity ].
  destruct (own_property "environments_info" ms) as [[| | | | items |]|] eqn:Hown;
    try (split; [split; discriminate |]; split;
         [ intros l; split; [discriminate |];
           intros (ms' & items & Hms & Hp & _); inversion Hms; subst; congruence
         | intros e H; inversion H; reflexivity ]).
  destruct (mapR (fun env => member env "prefix") items) as [l0|e0] eqn:Hmap.
  - apply mapR_prefix in Hmap. destruct Hmap as [Hall ->].
    split; [split; discriminate |]. split; [| discriminate].
    intros l. split.
    + intros H. inversion H. exists ms, items. repeat split; assumption.
    + intros (ms' & items' & Hms & Hp & _ & ->). inversion Hms; subst.
      rewrite Hown in Hp. inversion Hp. reflexivity.
  - split; [split; discriminate |]. split.
    + intros l. split; [discriminate |].
      intros (ms' & items' & Hms & Hp & Hall & _). inversion Hms; subst.
      rewrite Hown in Hp. inversion Hp; subst.
      assert (Hcontra : mapR (fun env => member env "prefix") items' = Ok (map env_prefix items'))
        by (apply mapR_prefix; split; [exact Hall | reflexivity]).
      congruence.
    + intros e H. inversion H; subst. clear H Hown.
      revert e Hmap. induction items as [| env items IH]; intros e Hmap; simpl in Hmap;
        [discriminate |].
      destruct env; simpl in Hmap; try (inversion Hmap; reflexivity);
        destruct (mapR (fun env => member env "prefix") items) as [ys|e'];
        try discriminate; inversion Hmap; subst; apply IH; reflexivity.
Qed.

Lemma prefixes_of_document_witness :
  let entries := [JObject [("prefix", JString "/a")]; JObject [("name", JString "b")]] in
  environment_prefixes (Some (JObject [("environments_info", JArray entries)]))
  = Ok (Some [str "/a"; undefined]).
Proof.
  intros entries.
  apply (proj1 (proj2 (prefixes_of_document (JObject [("environments_info", JArray entries)])))).
  exists [("environments_info", JArray entries)], entries.
  split; [reflexivity |]. split; [reflexivity |]. split; [| reflexivity].
  repeat constructor; discriminate.
Defined.

Example prefixes_keep_every_entry :
  (forall v, JSON_parse (Json.text "{'environments_info':[{'prefix':'/a'},{'name':'b'},7]}") = Ok v ->
             environment_prefixes (Some v) = Ok (Some [str "/a"; undefined; undefined]))
  /\ (forall v, JSON_parse (Json.text "{'environments_info':[{'prefix':'/a'},null]}") = Ok v ->
                environment_prefixes (Some v) = Throw TypeError)
  /\ (forall v, JSON_parse "null" = Ok v -> environment_prefixes (Some v) = Ok None).
Proof.
  repeat split; intros v H; vm_compute in H; inversion H; vm_compute; reflexivity.
Qed.

(** ** A tool that cannot be run *)

(** X3: when the [info --json] process of a handle cannot be started (the
    launcher rejects), and the memo holds nothing for the call, [getPixiInfo]
    returns [undefined] and writes the launcher's error to the log at error
    level; [getEnvListCached] returns [undefined] too, after that single
    process.  Neither throws. *)
Theorem spawn_failure_is_absent (w : World) (this : Pixi) (c : string) (s : State)
    (err : JsError) :
  exec w (command this) ["info"; "--json"]
    {| opt_cwd := cwd this; throwOnStdErr := false |} = Throw err ->
  no_live_entry (infoCache s) (now s) this c ->
  no_live_entry (envListCache s) (now s) this c ->
  fst (getPixiInfo w this c s) = Ok undefined
  /\ traceLog (snd (getPixiInfo w this c s)) = traceLog s ++ [(LError, [LErr err])]
  /\ fst (getEnvListCached w this c s) = Ok None
  /\ execLog (snd (getEnvListCached w this c s)) = execLog s ++ [info_call this]
  /\ traceLog (snd (getEnvListCached w this c s)) = traceLog s ++ [(LError, [LErr err])].
Proof.
  intros Hexec Hinfo Henv.
  assert (Hget : getPixiInfo w this c s
                 = (Ok undefined,
                    set_infoCache
                      (<[(oid this, c) := {| data := Ok undefined; expiry := now s + 1000 |}]>
                         (infoCache s))
                      (set_traceLog (traceLog s ++ [(LError, [LErr err])])
                         (set_execLog (execLog s ++ [info_call this]) s)))).
  { unfold getPixiInfo.
    rewrite (cache_miss _ _ _ infoCache set_infoCache this c _ s Hinfo).
    rewrite getPixiInfo_body_eq, Hexec. reflexivity. }
  split; [rewrite Hget; reflexivity |]. split; [rewrite Hget; reflexivity |].
  unfold getEnvListCached.
  rewrite (cache_miss _ _ _ envListCache set_envListCache this c _ s Henv).
  unfold getEnvListCached_body, mbind, M_bind, bind, lift. rewrite Hget.
  repeat split; reflexivity.
Qed.

Lemma spawn_failure_is_absent_witness :
  let w := posix_world Linux false (Ok None) [] run_fails (resolve_bin_python []) in
  let this := {| command := "pixi"; cwd := "/proj"; oid := 0 |} in
  fst (getPixiInfo w this "/proj" (initial 0)) = Ok undefined
  /\ traceLog (snd (getPixiInfo w this "/proj" (initial 0)))
     = [(LError, [LErr (ExternalError "Command failed")])]
  /\ fst (getEnvListCached w this "/proj" (initial 0)) = Ok None
  /\ execLog (snd (getEnvListCached w this "/proj" (initial 0))) = [info_call this]
  /\ traceLog (snd (getEnvListCached w this "/proj" (initial 0)))
     = [(LError, [LErr (ExternalError "Command failed")])].
Proof.
  intros w this.
  apply (spawn_failure_is_absent w this "/proj" (initial 0) (ExternalError "Command failed")).
  - reflexivity.
  - vm_compute. exact I.
  - vm_compute. exact I.
Defined.

(** ** More on locating the tool *)

Lemma grows_ret {A : Type} (a : A) : grows (mret a).
Proof. intros s. exists []. symmetry. apply app_nil_r. Qed.

Lemma grows_lift {A : Type} (r : Result A) : grows (lift r).
Proof. intros s. exists []. symmetry. apply app_nil_r. Qed.

Lemma grows_trace (level : LogLevel) (args : list LogArg) : grows (trace level args).
Proof. intros s. exists [(level, args)]. reflexivity. Qed.

Lemma grows_bind {A B : Type} (m : M A) (k : A -> M B) :
  grows m -> (forall a, grows (k a)) -> grows (m ≫= k).
Proof.
  intros Hm Hk s. unfold mbind, M_bind, bind.
  destruct (Hm s) as [l1 H1]. destruct (m s) as [[a|e] s']; simpl in *.
  - destruct (Hk a s') as [l2 H2]. exists (l1 ++ l2). rewrite H2, H1. symmetry; apply app_assoc.
  - exists l1. exact H1.
Qed.

Lemma grows_catch {A : Type} (m : M A) (h : JsError -> M A) :
  grows m -> (forall e, grows (h e)) -> grows (catch m h).
Proof.
  intros Hm Hh s. unfold catch.
  destruct (Hm s) as [l1 H1]. destruct (m s) as [[a|e] s']; simpl in *.
  - exists l1. exact H1.
  - destruct (Hh e s') as [l2 H2]. exists (l1 ++ l2). rewrite H2, H1. symmetry; apply app_assoc.
Qed.

Lemma grows_cache {A : Type} (ttl : Z) (cachePromise : bool) (startup : Z)
    (store : State -> gmap (nat * string) (CacheEntry A))
    (set_store : gmap (nat * string) (CacheEntry A) -> State -> State)
    (this : Pixi) (key : string) (method : M A) :
  (forall m s, traceLog (set_store m s) = traceLog s) ->
  grows method ->
  grows (cache ttl cachePromise startup store set_store this key method).
Proof.
  intros Hset Hm s. unfold cache.
  assert (Hmiss : exists added,
             traceLog (snd (let '(r, s') := method s in
                            let item := {| data := r; expiry := now s + ttl |} in
                            match r with
                            | Ok _ => (r, set_store (<[(oid this, key) := item]> (store s')) s')
                            | Throw _ =>
                                if cachePromise
                                then (r, set_store (<[(oid this, key) := item]> (store s')) s')
                                else (r, s')
                            end)) = traceLog s ++ added).
  { destruct (Hm s) as [l Hl]. exists l.
    destruct (method s) as [[a|e] s']; simpl in *.
    - rewrite Hset. exact Hl.
    - destruct cachePromise; simpl; [rewrite Hset |]; exact Hl. }
  destruct (store s !! (oid this, key)) as [item|]; [| exact Hmiss].
  destruct (now s <? expiry item); [| exact Hmiss].
  exists []. symmetry. apply app_nil_r.
Qed.

Lemma getEnvList_grows (w : World) (this : Pixi) : grows (getEnvList w this).
Proof.
  apply grows_cache; [reflexivity |].
  apply grows_bind; [| intros info; apply grows_lift].
  apply grows_cache; [reflexivity |].
  intros s. rewrite getPixiInfo_body_eq.
  destruct (exec w _ _ _) as [out|err]; [destruct (JSON_parse (stdout out)) |]; simpl.
  - exists []. symmetry. apply app_nil_r.
  - exists []. symmetry. apply app_nil_r.
  - eexists. reflexivity.
Qed.

Lemma probe_grows (w : World) (dir : string) (stages : list (M (option string))) :
  Forall grows stages -> grows (probe w dir stages).
Proof.
  induction 1 as [| next rest Hnext _ IH]; simpl.
  - apply grows_bind; [apply grows_trace | intros _; apply grows_ret].
  - apply grows_bind; [exact Hnext |].
    intros [pixiToolPath|]; [| exact IH].
    apply grows_bind; [apply grows_trace |]. intros _.
    apply grows_bind; [intros s; exists []; symmetry; apply app_nil_r |]. intros pixi.
    apply grows_bind; [apply getEnvList_grows |].
    intros [virtualenvs|].
    + apply grows_bind; [apply grows_trace | intros _; apply grows_ret].
    + apply grows_bind; [apply grows_trace | intros _; exact IH].
Qed.

Lemma probes_prefix (w : World) (dir : string) (cs : list string) (o : nat) :
  map call_file (probes w dir cs o) `prefix_of` cs.
Proof.
  revert o. induction cs as [| c cs IH]; intros o; simpl.
  - exists []. reflexivity.
  - destruct (answer w c dir) as [[l|]|e]; simpl.
    + exists cs. reflexivity.
    + destruct (IH (S o)) as [k Hk]. exists k. rewrite Hk at 1. reflexivity.
    + exists cs. reflexivity.
Qed.

Lemma probes_are_probes (w : World) (dir : string) (cs : list string) (o : nat) :
  Forall (probe_of dir) (probes w dir cs o).
Proof.
  revert o. induction cs as [| c cs IH]; intros o; simpl; [constructor |].
  constructor; [split; reflexivity |].
  destruct (answer w c dir) as [[l|]|e]; [constructor | apply IH | constructor].
Qed.

Lemma candidates_length (w : World) :
  (1 <= length (candidates w) <= 3)%nat /\ In "pixi" (candidates w).
Proof.
  unfold candidates. destruct (override w), (home_install w); simpl; split; try lia; tauto.
Qed.

Lemma first_functioning_some (w : World) (dir : string) (cs : list string) (o : nat) (p : Pixi) :
  first_functioning w dir cs o = Ok (Some p) ->
  In (command p) cs /\ cwd p = dir /\ exists l, answer w (command p) dir = Ok (Some l).
Proof.
  revert o. induction cs as [| c cs IH]; intros o; simpl; [discriminate |].
  destruct (answer w c dir) as [[l|]|e] eqn:Hans.
  - intros H. inversion H. simpl. split; [left; reflexivity |]. split; [reflexivity |].
    exists l. exact Hans.
  - intros H. destruct (IH (S o) H) as (Hin & Hcwd & Hl). split; [right; exact Hin |].
    split; assumption.
  - discriminate.
Qed.

Lemma all_absent (w : World) (dir : string) (cs : list string) (o : nat) :
  Forall (fun c => answer w c dir = Ok None) cs ->
  first_functioning w dir cs o = Ok None /\ map call_file (probes w dir cs o) = cs.
Proof.
  intros Hall. revert o. induction Hall as [| c cs Hc _ IH]; intros o; simpl.
  - split; reflexivity.
  - rewrite Hc. destruct (IH (S o)) as [Hr Hp]. split; [exact Hr |].
    simpl. rewrite Hp. reflexivity.
Qed.

(** X4: [locate], from a state in which every memo entry belongs to a handle
    already made, probes the candidates in their order (the configured path
    unless it is unset, empty or ["pixi"]; then ["pixi"]; then the install
    under the home directory if it is on disk), each with a handle of its
    own: a candidate that answers with a list ends the search with its handle,
    one that answers "absent" passes it on, one whose probe throws ends it
    with that error, and no candidates left gives "none".  The processes
    started are those of the candidates probed, in that order. *)
Theorem locate_probes_in_priority_order (w : World) (dir : string) (s : State) :
  handles_numbered s ->
  fst (locate w dir s) = first_functioning w dir (candidates w) (nextOid s)
  /\ execLog (snd (locate w dir s)) = execLog s ++ probes w dir (candidates w) (nextOid s)
  /\ handles_numbered (snd (locate w dir s)).
Proof. apply locate_first_functioning. Qed.

Lemma locate_probes_in_priority_order_witness :
  fst (locate home_install_world "/proj" (initial 0))
  = Ok (Some {| command := "/home/u/.pixi/bin/pixi"; cwd := "/proj"; oid := 1 |})
  /\ execLog (snd (locate home_install_world "/proj" (initial 0)))
     = [info_call {| command := "pixi"; cwd := "/proj"; oid := 0 |};
        info_call {| command := "/home/u/.pixi/bin/pixi"; cwd := "/proj"; oid := 1 |}].
Proof.
  destruct (locate_probes_in_priority_order home_install_world "/proj" (initial 0)
              (handles_numbered_initial 0)) as (Hr & Hlog & _).
  rewrite Hr, Hlog. split; vm_compute; reflexivity.
Defined.

(** X5: a configured path that is set, not empty and not ["pixi"], and whose
    [info --json] in the requested directory prints a document with a list of
    environments, is taken: [locate] returns a handle with that command,
    bound to the directory, and starts that one process only. *)
Theorem locate_takes_working_override (w : World) (dir p : string) (s : State)
    (out : ExecutionResult) (info : json) (l : list jsval) :
  handles_numbered s ->
  getPythonSetting w "pixiToolPath" = Ok (Some p) ->
  p <> EmptyString -> p <> "pixi" ->
  exec w p ["info"; "--json"] {| opt_cwd := dir; throwOnStdErr := false |} = Ok out ->
  JSON_parse (stdout out) = Ok info ->
  environment_prefixes (Some info) = Ok (Some l) ->
  fst (locate w dir s) = Ok (Some {| command := p; cwd := dir; oid := nextOid s |})
  /\ execLog (snd (locate w dir s))
     = execLog s ++ [info_call {| command := p; cwd := dir; oid := nextOid s |}].
Proof.
  intros Hwf Hset Hne Hnp Hexec Hparse Hpre.
  apply (locate_override_functions w dir p l s Hwf).
  - unfold override. rewrite Hset.
    destruct (String.eqb_spec p ""); [congruence |].
    destruct (String.eqb_spec p "pixi"); [congruence | reflexivity].
  - unfold answer, info_outcome. rewrite Hexec, Hparse. exact Hpre.
Qed.

Lemma locate_takes_working_override_witness :
  let w := test_world "path/to/pixi/binary"
             (makeExecHandler (Some "path/to/pixi/binary") (Some nonWindows_path)) in
  let p := {| command := "path/to/pixi/binary"; cwd := nonWindows_path; oid := 0 |} in
  fst (locate w nonWindows_path (initial 0)) = Ok (Some p)
  /\ execLog (snd (locate w nonWindows_path (initial 0))) = [info_call p].
Proof.
  intros w p.
  apply (locate_takes_working_override w nonWindows_path "path/to/pixi/binary" (initial 0)
           {| stdout := nonWindows_info; stderr := None |}
           (JObject [("environments_info",
                      JArray [JObject [("prefix",
                                        JString "/layout/pixi/non-windows/.pixi/envs/default")]])])
           [str "/layout/pixi/non-windows/.pixi/envs/default"]).
  - apply handles_numbered_initial.
  - reflexivity.
  - discriminate.
  - discriminate.
  - vm_compute. reflexivity.
  - vm_compute. reflexivity.
  - vm_compute. reflexivity.
Defined.

(** X6: when none of the candidates can be started in the requested
    directory, [locate] returns "none" without throwing, after trying every
    candidate once, in order. *)
Theorem locate_none_when_nothing_starts (w : World) (dir : string) (s : State) :
  handles_numbered s ->
  (forall c, In c (candidates w) ->
             exists err, exec w c ["info"; "--json"]
                           {| opt_cwd := dir; throwOnStdErr := false |} = Throw err) ->
  fst (locate w dir s) = Ok None
  /\ exists calls, execLog (snd (locate w dir s)) = execLog s ++ calls
                   /\ map call_file calls = candidates w
                   /\ Forall (probe_of dir) calls.
Proof.
  intros Hwf Hfail.
  destruct (locate_first_functioning w dir s Hwf) as (Hr & Hlog & _).
  assert (Hall : Forall (fun c => answer w c dir = Ok None) (candidates w)).
  { apply List.Forall_forall. intros c Hc. destruct (Hfail c Hc) as [err Herr].
    unfold answer, info_outcome. rewrite Herr. reflexivity. }
  destruct (all_absent w dir (candidates w) (nextOid s) Hall) as [Hnone Hfiles].
  split; [rewrite Hr; exact Hnone |].
  exists (probes w dir (candidates w) (nextOid s)).
  split; [exact Hlog |]. split; [exact Hfiles | apply probes_are_probes].
Qed.

Lemma locate_none_when_nothing_starts_witness :
  let w := test_world "pixi" run_fails in
  fst (locate w nonWindows_path (initial 0)) = Ok None
  /\ exists calls, execLog (snd (locate w nonWindows_path (initial 0))) = [] ++ calls
                   /\ map call_file calls = ["pixi"]
                   /\ Forall (probe_of nonWindows_path) calls.
Proof.
  intros w.
  apply (locate_none_when_nothing_starts w nonWindows_path (initial 0)).
  - apply handles_numbered_initial.
  - intros c _. exists (ExternalError "Command failed"). reflexivity.
Defined.

Lemma probe_skip (w : World) (dir : string) (stage : M (option string))
    (rest : list (M (option string))) (s s1 : State) :
  stage s = (Ok None, s1) -> probe w dir (stage :: rest) s = probe w dir rest s1.
Proof.
  intros Hstage. cbn [probe]. unfold mbind at 1. unfold M_bind, bind.
  rewrite Hstage. reflexivity.
Qed.

Lemma custom_candidate_failure (w : World) (s : State) (e : JsError) :
  getPythonSetting w "pixiToolPath" = Throw e ->
  custom_candidate w s
  = (Ok None,
     set_traceLog (traceLog s ++ [(LError, [LStr "Failed to get pixi setting"; LErr e])]) s).
Proof.
  intros Hset. unfold custom_candidate, catch, mbind, M_bind, bind, lift.
  rewrite Hset. reflexivity.
Qed.

(** X7: a failure to read the setting does not stop [locate]: it is written
    to the log at error level, right after the opening trace, no override is
    probed, and the first process started is the bare command ["pixi"] in the
    requested directory. *)
Theorem locate_survives_setting_failure (w : World) (dir : string) (s : State)
    (e : JsError) :
  handles_numbered s ->
  getPythonSetting w "pixiToolPath" = Throw e ->
  (exists rest,
     traceLog (snd (locate w dir s))
     = traceLog s
       ++ [(LVerbose, [LStr ("Getting pixi for cwd " +:+ dir)]);
           (LError, [LStr "Failed to get pixi setting"; LErr e])]
       ++ rest)
  /\ exists calls,
       execLog (snd (locate w dir s))
       = execLog s ++ info_call {| command := "pixi"; cwd := dir; oid := nextOid s |} :: calls.
Proof.
  intros Hwf Hset. split.
  - unfold locate, mbind at 1. unfold M_bind, bind, traceVerbose, trace, getCandidates.
    rewrite (probe_skip w dir _ _ _ _ (custom_candidate_failure w _ e Hset)).
    assert (Hgrow : grows (probe w dir [bare_candidate; home_candidate w])).
    { apply probe_grows. constructor; [apply grows_ret |].
      constructor; [apply grows_ret | constructor]. }
    match goal with
    | |- exists rest, traceLog (snd (probe w dir _ ?s2)) = _ =>
        destruct (Hgrow s2) as [rest Hrest]
    end.
    exists rest. rewrite Hrest. simpl. rewrite <- !app_assoc. reflexivity.
  - destruct (locate_first_functioning w dir s Hwf) as (_ & Hlog & _).
    rewrite Hlog. unfold candidates, override. rewrite Hset. simpl. eexists. reflexivity.
Qed.

Lemma locate_survives_setting_failure_witness :
  let w := posix_world Linux false (Throw (ExternalError "no configuration")) [] run_fails
             (resolve_bin_python []) in
  (exists rest,
     traceLog (snd (locate w "/proj" (initial 0)))
     = [] ++ [(LVerbose, [LStr "Getting pixi for cwd /proj"]);
              (LError, [LStr "Failed to get pixi setting";
                        LErr (ExternalError "no configuration")])]
          ++ rest)
  /\ exists calls,
       execLog (snd (locate w "/proj" (initial 0)))
       = [] ++ info_call {| command := "pixi"; cwd := "/proj"; oid := 0 |} :: calls.
Proof.
  intros w.
  apply (locate_survives_setting_failure w "/proj" (initial 0) (ExternalError "no configuration")).
  - apply handles_numbered_initial.
  - reflexivity.
Defined.

(** X8: [locate] starts between one and three processes and nothing else:
    each is [info --json], run in the requested directory without
    [throwOnStdErr], and the executables are an initial stretch of the
    candidate list, in its order. *)
Theorem locate_starts_only_probes (w : World) (dir : string) (s : State) :
  handles_numbered s ->
  exists calls,
    execLog (snd (locate w dir s)) = execLog s ++ calls
    /\ map call_file calls `prefix_of` candidates w
    /\ (1 <= length calls <= 3)%nat
    /\ Forall (probe_of dir) calls.
Proof.
  intros Hwf.
  destruct (locate_first_functioning w dir s Hwf) as (_ & Hlog & _).
  exists (probes w dir (candidates w) (nextOid s)).
  split; [exact Hlog |]. split; [apply probes_prefix |]. split; [| apply probes_are_probes].
  pose proof (prefix_length _ _ (probes_prefix w dir (candidates w) (nextOid s))) as Hlen.
  rewrite length_map in Hlen.
  destruct (candidates_length w) as [Hcand _].
  split; [| lia].
  destruct (candidates w) as [| c cs]; [simpl in Hcand; lia |]. simpl. lia.
Qed.

Lemma locate_starts_only_probes_witness :
  exists calls,
    execLog (snd (locate home_install_world "/proj" (initial 0))) = [] ++ calls
    /\ map call_file calls `prefix_of` ["pixi"; "/home/u/.pixi/bin/pixi"]
    /\ (1 <= length calls <= 3)%nat
    /\ Forall (probe_of "/proj") calls.
Proof.
  exact (locate_starts_only_probes home_install_world "/proj" (initial 0)
           (handles_numbered_initial 0)).
Defined.

(** X9: a handle [locate] returns has answered: its command is one of the
    candidates, it is bound to the requested directory, and its [info --json]
    there printed a document that parses and has a list of environments. *)
Theorem located_handle_functions (w : World) (dir : string) (s : State) (p : Pixi) :
  handles_numbered s ->
  fst (locate w dir s) = Ok (Some p) ->
  In (command p) (candidates w)
  /\ cwd p = dir
  /\ exists out info l,
       exec w (command p) ["info"; "--json"] {| opt_cwd := dir; throwOnStdErr := false |}
       = Ok out
       /\ JSON_parse (stdout out) = Ok info
       /\ environment_prefixes (Some info) = Ok (Some l).
Proof.
  intros Hwf Hp.
  destruct (locate_first_functioning w dir s Hwf) as (Hr & _ & _).
  rewrite Hr in Hp.
  destruct (first_functioning_some w dir _ _ p Hp) as (Hin & Hcwd & l & Hans).
  split; [exact Hin |]. split; [exact Hcwd |].
  unfold answer, info_outcome in Hans.
  destruct (exec w (command p) _ _) as [out|err] eqn:Hexec; [| discriminate Hans].
  destruct (JSON_parse (stdout out)) as [info|e] eqn:Hparse; [| discriminate Hans].
  exists out, info, l. split; [reflexivity |]. split; [exact Hparse | exact Hans].
Qed.

Lemma located_handle_functions_witness :
  let p := {| command := "/home/u/.pixi/bin/pixi"; cwd := "/proj"; oid := 1 |} in
  In (command p) (candidates home_install_world)
  /\ cwd p = "/proj"
  /\ exists out info l,
       exec home_install_world (command p) ["info"; "--json"]
         {| opt_cwd := "/proj"; throwOnStdErr := false |} = Ok out
       /\ JSON_parse (stdout out) = Ok info
       /\ environment_prefixes (Some info) = Ok (Some l).
Proof.
  intros p.
  apply (located_handle_functions home_install_world "/proj" (initial 0) p).
  - apply handles_numbered_initial.
  - vm_compute. reflexivity.
Defined.

(** ** More on the registry *)

Lemma getPixi_handles_numbered (w : World) (dir : string) (s : State) :
  handles_numbered s -> handles_numbered (snd (getPixi w dir s)).
Proof.
  intros Hwf.
  destruct (isTestExecution w) eqn:Htest; [| destruct (pixiPromise s !! dir) as [q|] eqn:Hdir].
  2: { rewrite (getPixi_known w dir s q Htest Hdir). exact Hwf. }
  all: rewrite getPixi_resolves by (first [left; exact Htest | right; exact Hdir]);
    unfold locate_and_store;
    destruct (locate_first_functioning w dir s Hwf) as (_ & _ & Hwf');
    destruct (locate w dir s) as [r s']; exact Hwf'.
Qed.

Lemma found_in_more (ws ws' : list World) (dir : string) (p : Pixi) :
  found_in ws dir p -> found_in (ws ++ ws') dir p.
Proof.
  intros (w & Hw & Hin & Hans). exists w.
  split; [apply in_or_app; left; exact Hw |]. split; assumption.
Qed.

Lemma getPixi_registry_sound (w : World) (ws : list World) (dir : string) (s : State) :
  handles_numbered s -> registry_sound ws s ->
  registry_sound (ws ++ [w]) (snd (getPixi w dir s)).
Proof.
  intros Hwf Hsound.
  assert (Hold : registry_sound (ws ++ [w]) s).
  { intros d p Hp. destruct (Hsound d p Hp) as [Hcwd Hfound].
    split; [exact Hcwd | apply found_in_more; exact Hfound]. }
  destruct (isTestExecution w) eqn:Htest; [| destruct (pixiPromise s !! dir) as [q|] eqn:Hdir].
  2: { rewrite (getPixi_known w dir s q Htest Hdir). exact Hold. }
  all: rewrite getPixi_resolves by (first [left; exact Htest | right; exact Hdir]);
    unfold locate_and_store;
    pose proof (locate_keeps_registry w dir s) as Hkeep;
    destruct (locate_first_functioning w dir s Hwf) as (Hr & _ & _);
    destruct (locate w dir s) as [r s']; simpl in *;
    intros d p Hp; simpl in Hp;
    destruct (decide (d = dir)) as [-> | Hne];
    [ rewrite lookup_insert_eq in Hp; injection Hp as Hp; rewrite Hr in Hp;
      destruct (first_functioning_some w dir _ _ p Hp) as (Hin & Hcwd & Hans);
      split; [exact Hcwd |]; exists w;
      split; [apply in_or_app; right; left; reflexivity |]; split; assumption
    | rewrite lookup_insert_ne in Hp by congruence; rewrite Hkeep in Hp;
      apply Hold; exact Hp ].
Qed.

Lemma history_invariants (moments : list Moment) (ws : list World) (s : State) :
  handles_numbered s -> registry_sound ws s ->
  handles_numbered (history moments s)
  /\ registry_sound (ws ++ worlds moments) (history moments s).
Proof.
  revert ws s. induction moments as [| m moments IH]; intros ws s Hwf Hsound.
  - simpl. rewrite app_nil_r. split; assumption.
  - destruct m as [w dir | ms]; simpl.
    + replace (ws ++ w :: worlds moments) with ((ws ++ [w]) ++ worlds moments)
        by (rewrite <- app_assoc; reflexivity).
      apply IH; [apply getPixi_handles_numbered | apply getPixi_registry_sound]; assumption.
    + apply (IH ws (set_now (now s + ms) s)); assumption.
Qed.

(** X10: whatever requests were served since the process started, in
    whatever worlds (the setting, the disk and the tool may have changed in
    between), and however much time passed: every handle kept in the registry
    is bound to the directory it is filed under and was found functioning for
    it in the world of one of those requests, where its command was a
    candidate of [locate] and answered with a list; and so is the handle
    [getPixi] returns next, the world of that request included. *)
Theorem registered_handles_are_sound (moments : list Moment) (t : Z) (w : World)
    (dir : string) (p : Pixi) :
  let s := history moments (initial t) in
  registry_sound (worlds moments) s
  /\ (fst (getPixi w dir s) = Ok (Some p) ->
      cwd p = dir /\ found_in (worlds moments ++ [w]) dir p).
Proof.
  intros s.
  destruct (history_invariants moments [] (initial t) (handles_numbered_initial t))
    as [Hwf Hsound].
  { intros d q Hq. simpl in Hq. rewrite lookup_empty in Hq. discriminate Hq. }
  simpl in Hsound. fold s in Hwf, Hsound. split; [exact Hsound |].
  intros Hp.
  apply (getPixi_registry_sound w (worlds moments) dir s Hwf Hsound dir p).
  rewrite getPixi_stores_outcome, Hp. reflexivity.
Qed.

Lemma registered_handles_are_sound_witness :
  let moments := [Served home_install_world "/proj"; Passed 60000] in
  let p := {| command := "/home/u/.pixi/bin/pixi"; cwd := "/proj"; oid := 1 |} in
  fst (getPixi moved_world "/proj" (history moments (initial 0))) = Ok (Some p)
  /\ candidates moved_world = ["/opt/b/pixi"; "pixi"]
  /\ cwd p = "/proj"
  /\ found_in [home_install_world; moved_world] "/proj" p.
Proof.
  intros moments p.
  assert (Hp : fst (getPixi moved_world "/proj" (history moments (initial 0))) = Ok (Some p))
    by (vm_compute; reflexivity).
  split; [exact Hp |]. split; [vm_compute; reflexivity |].
  exact (proj2 (registered_handles_are_sound moments 0 moved_world "/proj" p) Hp).
Defined.

(** X11: a request for one directory never touches the registry entry of
    another, in test execution or outside it. *)
Theorem getPixi_keeps_other_entries (w : World) (dir other : string) (s : State) :
  other <> dir ->
  pixiPromise (snd (getPixi w dir s)) !! other = pixiPromise s !! other.
Proof.
  intros Hne.
  destruct (isTestExecution w) eqn:Htest; [| destruct (pixiPromise s !! dir) as [q|] eqn:Hdir].
  2: { rewrite (getPixi_known w dir s q Htest Hdir). reflexivity. }
  all: rewrite getPixi_resolves by (first [left; exact Htest | right; exact Hdir]);
    unfold locate_and_store;
    pose proof (locate_keeps_registry w dir s) as Hkeep;
    destruct (locate w dir s) as [r s']; simpl in *;
    rewrite lookup_insert_ne by congruence; rewrite Hkeep; reflexivity.
Qed.

Lemma getPixi_keeps_other_entries_witness :
  let w := test_world "pixi" run_fails in
  let s := snd (getPixi w "/a" (initial 0)) in
  pixiPromise (snd (getPixi w "/b" s)) !! "/a" = pixiPromise s !! "/a".
Proof.
  intros w s. apply (getPixi_keeps_other_entries w "/b" "/a" s). discriminate.
Defined.

(** ** More on the project of an interpreter *)

(** X12: [getPixiEnvironmentFromInterpreter] never returns "absent"
    silently: when it does, the last thing it wrote to the log is a warning
    naming the interpreter, "could not find a pixi interpreter ..." when no
    tool was located for the derived project directory and "failed to
    determine pixi project information ..." otherwise. *)
Theorem absent_project_is_warned (w : World) (P : string) (s : State) :
  fst (getPixiEnvironmentFromInterpreter w P s) = Ok None ->
  last (traceLog (snd (getPixiEnvironmentFromInterpreter w P s)))
  = Some (LWarn,
          [LStr ((match fst (getPixi w (getPixiProjectFolderFromInterpreter w P) s) with
                  | Ok None => "could not find a pixi interpreter for the interpreter at "
                  | _ => "failed to determine pixi project information for the interpreter at "
                  end) +:+ P)]).
Proof.
  unfold getPixiProjectFolderFromInterpreter.
  destruct (getPixiEnvironmentFromInterpreter w P s) as [res s'] eqn:Hrun.
  cbn [fst snd]. intros ->.
  unfold getPixiEnvironmentFromInterpreter, mbind, M_bind, bind, lift, traceWarn, trace,
    mret, M_ret, ret in Hrun.
  destruct (getPixi w _ s) as [[[pixi|]|e] s1]; cbn [fst];
    [| inversion Hrun; apply last_snoc | discriminate Hrun].
  destruct (getPixiInfo w pixi _ s1) as [[[info|]|e] s2];
    [| inversion Hrun; apply last_snoc | discriminate Hrun].
  destruct (truthy info); [| inversion Hrun; apply last_snoc].
  destruct (member info "project_info") as [[pinfo|]|e];
    [| inversion Hrun; apply last_snoc | discriminate Hrun].
  destruct (truthy pinfo); [| inversion Hrun; apply last_snoc].
  destruct (member info "version"); discriminate Hrun.
Qed.

Lemma absent_project_is_warned_witness :
  let w := test_world "pixi" run_fails in
  last (traceLog (snd (getPixiEnvironmentFromInterpreter w
                         "/proj/.pixi/envs/default/bin/python" (initial 0))))
  = Some (LWarn,
          [LStr "could not find a pixi interpreter for the interpreter at /proj/.pixi/envs/default/bin/python"]).
Proof.
  intros w.
  exact (absent_project_is_warned w "/proj/.pixi/envs/default/bin/python" (initial 0) eq_refl).
Defined.

Lemma getPixiEnvironmentFromInterpreter_some (w : World) (P : string) (s : State)
    (found : PixiEnvironmentInfo) :
  registry_bound s ->
  fst (getPixiEnvironmentFromInterpreter w P s) = Ok (Some found) ->
  interpreterPath found = P
  /\ projectDir found = getPixiProjectFolderFromInterpreter w P
  /\ envName found = basename (path w) (getCondaEnvironmentFromInterpreterPath w P)
  /\ cwd (pixi found) = projectDir found
  /\ fst (getPixi w (getPixiProjectFolderFromInterpreter w P) s) = Ok (Some (pixi found))
  /\ truthy (projectInfo found) = true
  /\ exists info : json,
       fst (getPixiInfo w (pixi found) (projectDir found)
              (snd (getPixi w (getPixiProjectFolderFromInterpreter w P) s)))
       = Ok (Some info)
       /\ member info "project_info" = Ok (Some (projectInfo found))
       /\ member info "version" = Ok (pixiVersion found).
Proof.
  intros Hbound. unfold getPixiProjectFolderFromInterpreter.
  destruct (getPixiEnvironmentFromInterpreter w P s) as [res s'] eqn:Hrun.
  cbn [fst]. intros ->.
  unfold getPixiEnvironmentFromInterpreter, mbind, M_bind, bind, lift, traceWarn, trace,
    mret, M_ret, ret in Hrun.
  pose proof (getPixi_handle_bound w
                (dirname (path w) (dirname (path w) (dirname (path w)
                   (getCondaEnvironmentFromInterpreterPath w P)))) s) as Hcwd.
  destruct (getPixi w _ s) as [[[handle|]|e] s1]; cbn [fst snd] in *;
    [| discriminate Hrun | discriminate Hrun].
  specialize (Hcwd handle Hbound eq_refl).
  destruct (getPixiInfo w handle _ s1) as [[[info|]|e] s2] eqn:Hinfo;
    [| discriminate Hrun | discriminate Hrun].
  destruct (truthy info); [| discriminate Hrun].
  destruct (member info "project_info") as [[pinfo|]|e] eqn:Hproject;
    [| discriminate Hrun | discriminate Hrun].
  destruct (truthy pinfo) eqn:Htruthy; [| discriminate Hrun].
  destruct (member info "version") as [version|e] eqn:Hversion; [| discriminate Hrun].
  inversion Hrun; subst. cbn.
  split; [reflexivity |]. split; [reflexivity |]. split; [reflexivity |].
  split; [exact Hcwd |]. split; [reflexivity |]. split; [exact Htruthy |].
  exists info. rewrite Hinfo. split; [reflexivity |]. split; assumption.
Qed.

(** X13: what [getPixiEnvironmentFromInterpreter] finds for an interpreter
    [P], when every handle in the registry is bound to the directory it is
    filed under: the interpreter path is [P], the project directory is the
    one [getPixiProjectFolderFromInterpreter] derives from [P], the
    environment name is the last segment of the environment directory, the
    handle is the one the registry gives for the project directory and is
    bound to it, and the project information and the version are the
    [project_info], a truthy one, and the [version] of the document that
    handle's [getPixiInfo] returns for the project directory. *)
Theorem found_project_matches_interpreter (w : World) (P : string) (s : State)
    (found : PixiEnvironmentInfo) :
  registry_bound s ->
  fst (getPixiEnvironmentFromInterpreter w P s) = Ok (Some found) ->
  interpreterPath found = P
  /\ projectDir found = getPixiProjectFolderFromInterpreter w P
  /\ envName found = basename (path w) (getCondaEnvironmentFromInterpreterPath w P)
  /\ cwd (pixi found) = projectDir found
  /\ fst (getPixi w (getPixiProjectFolderFromInterpreter w P) s) = Ok (Some (pixi found))
  /\ truthy (projectInfo found) = true
  /\ exists info : json,
       fst (getPixiInfo w (pixi found) (projectDir found)
              (snd (getPixi w (getPixiProjectFolderFromInterpreter w P) s)))
       = Ok (Some info)
       /\ member info "project_info" = Ok (Some (projectInfo found))
       /\ member info "version" = Ok (pixiVersion found).
Proof. apply getPixiEnvironmentFromInterpreter_some. Qed.

Lemma registry_bound_initial (t : Z) : registry_bound (initial t).
Proof. intros d p Hp. simpl in Hp. rewrite lookup_empty in Hp. discriminate Hp. Qed.

Lemma found_project_matches_interpreter_witness :
  let P := "/proj/.pixi/envs/py311/bin/python" in
  let handle := {| command := "pixi"; cwd := "/proj"; oid := 0 |} in
  let project := JObject [("manifest_path", JString "/proj/pixi.toml");
                          ("last_updated", JString "01-01-2024 00:00:00");
                          ("version", JString "0.1.0")] in
  let found := {| interpreterPath := P;
                  pixi := handle;
                  pixiVersion := str "0.23.0";
                  projectInfo := project;
                  projectDir := "/proj";
                  envName := "py311" |} in
  fst (getPixiEnvironmentFromInterpreter project_world P (initial 0)) = Ok (Some found)
  /\ fst (getPixi project_world "/proj" (initial 0)) = Ok (Some handle)
  /\ truthy project = true
  /\ exists info : json,
       fst (getPixiInfo project_world handle "/proj"
              (snd (getPixi project_world "/proj" (initial 0)))) = Ok (Some info)
       /\ member info "project_info" = Ok (Some project)
       /\ member info "version" = Ok (str "0.23.0").
Proof.
  intros P handle project found.
  assert (Hrun : fst (getPixiEnvironmentFromInterpreter project_world P (initial 0))
                 = Ok (Some found)) by (vm_compute; reflexivity).
  split; [exact Hrun |].
  destruct (found_project_matches_interpreter project_world P (initial 0) found
              (registry_bound_initial 0) Hrun)
    as (_ & _ & _ & _ & Hhandle & Htruthy & Hinfo).
  split; [exact Hhandle |]. split; [exact Htruthy |]. exact Hinfo.
Defined.

(** X14: on POSIX paths, for an interpreter laid out under a project
    directory [project] in the environment [name], what
    [getPixiEnvironmentFromInterpreter] finds is that project, that
    environment name, and a handle bound to the project directory. *)
Theorem found_project_of_layout (w : World) (project name : string) (s : State)
    (found : PixiEnvironmentInfo) :
  path w = posix -> plain_directory project -> segment name ->
  registry_bound s ->
  fst (getPixiEnvironmentFromInterpreter w (interpreter_in (getOSType w) project name) s)
  = Ok (Some found) ->
  projectDir found = project /\ envName found = name /\ cwd (pixi found) = project.
Proof.
  intros Hpath Hproj Hname Hbound Hrun.
  destruct (getPixiEnvironmentFromInterpreter_some w _ s found Hbound Hrun)
    as (_ & Hdir & Henv & Hcwd & _).
  pose proof (posix_environment_of_interpreter w project name Hpath Hname) as Hderiv.
  assert (Hp : projectDir found = project).
  { rewrite Hdir. unfold getPixiProjectFolderFromInterpreter. rewrite Hderiv, Hpath.
    apply posix_project_of_environment; assumption. }
  split; [exact Hp |]. split; [| rewrite Hcwd; exact Hp].
  rewrite Henv, Hderiv, Hpath, environment_in_children.
  apply posix_basename_child. exact Hname.
Qed.

Lemma found_project_of_layout_witness :
  exists found,
    fst (getPixiEnvironmentFromInterpreter project_world
           (interpreter_in Linux "/proj" "py311") (initial 0)) = Ok (Some found)
    /\ projectDir found = "/proj" /\ envName found = "py311" /\ cwd (pixi found) = "/proj".
Proof.
  destruct (fst (getPixiEnvironmentFromInterpreter project_world
                   (interpreter_in Linux "/proj" "py311") (initial 0)))
    as [[found|]|e] eqn:Hrun; [| vm_compute in Hrun; discriminate Hrun ..].
  exists found. split; [reflexivity |].
  apply (found_project_of_layout project_world "/proj" "py311" (initial 0) found).
  - reflexivity.
  - split; [discriminate | reflexivity].
  - split; [discriminate | reflexivity].
  - apply registry_bound_initial.
  - exact Hrun.
Defined.

(** ** More on the enumeration *)

Lemma records_sound (w : World) (envDirs : list jsval) :
  Forall (fun r => pathExists w (envPath r) = true
                   /\ getCondaInterpreterPath w (envPath r) = Ok (Some (executablePath r)))
    (records w (List.filter (pathExists w) envDirs)).
Proof.
  unfold records. induction envDirs as [| d envDirs IH]; simpl; [constructor |].
  destruct (pathExists w d) eqn:Hd; [| exact IH]. simpl.
  apply Forall_app. split; [| exact IH].
  unfold record_of.
  destruct (getCondaInterpreterPath w d) as [[filename|]|e] eqn:Hres; constructor.
  - simpl. split; assumption.
  - constructor.
Qed.

(** X15: every record an enumeration yields stands for an environment
    directory that exists on disk, and carries the interpreter the resolver
    gave for that directory. *)
Theorem yielded_records_are_sound (w : World) (this : PixiLocator) (s : State) :
  Forall (fun r => pathExists w (envPath r) = true
                   /\ getCondaInterpreterPath w (envPath r) = Ok (Some (executablePath r)))
    (fst (fst (doIterEnvs w this s))).
Proof.
  unfold doIterEnvs.
  pose proof (iterator_eq w (root this) s) as Hit.
  rewrite getVirtualEnvDirs_eq in Hit.
  destruct (reported_prefixes w (root this) s) as [[reported|e] s1].
  - destruct Hit as (Hys & _). rewrite Hys. apply records_sound.
  - rewrite Hit. constructor.
Qed.

(** X16: when no tool is located for the root, the enumeration yields
    nothing and completes normally, and it starts no process beyond those of
    the search: the locator stays silent instead of failing. *)
Theorem enumeration_is_empty_without_tool (w : World) (this : PixiLocator) (s : State) :
  fst (getPixi w (root this) s) = Ok None ->
  fst (doIterEnvs w this s) = ([], Ok tt)
  /\ execLog (snd (doIterEnvs w this s)) = execLog (snd (getPixi w (root this) s)).
Proof.
  intros Hnone. unfold doIterEnvs.
  pose proof (iterator_eq w (root this) s) as Hit.
  unfold getVirtualEnvDirs, asyncFilter, mbind, M_bind, bind, mret, M_ret, ret in Hit.
  destruct (getPixi w (root this) s) as [[[p|]|e] s1]; cbn [fst snd] in *;
    try discriminate Hnone.
  destruct Hit as (Hys & Hlog). split; assumption.
Qed.

Lemma enumeration_is_empty_without_tool_witness :
  let w := test_world "pixi" run_fails in
  fst (doIterEnvs w {| root := "/proj" |} (initial 0)) = ([], Ok tt)
  /\ execLog (snd (doIterEnvs w {| root := "/proj" |} (initial 0)))
     = execLog (snd (getPixi w "/proj" (initial 0))).
Proof.
  intros w.
  apply (enumeration_is_empty_without_tool w {| root := "/proj" |} (initial 0)).
  vm_compute. reflexivity.
Defined.

(** ** The two variants of the list accessor *)

Lemma earlier_getEnvList_miss (w : World) (this : Pixi) (s : State) :
  no_live_entry (envListCache s) (now s) this (cwd this) ->
  fst (Earlier.getEnvList w this s) =
    match exec w (command this) ["info"; "--json"]
            {| opt_cwd := cwd this; throwOnStdErr := true |} with
    | Throw _ => Ok None
    | Ok out =>
        match JSON_parse (stdout out) with
        | Throw e => Throw e
        | Ok info =>
            match member info "environments_info" with
            | Throw e => Throw e
            | Ok environments_info =>
                match array_map environments_info (fun env => member env "prefix") with
                | Ok prefixes => Ok (Some prefixes)
                | Throw e => Throw e
                end
            end
        end
    end.
Proof.
  intros Hmiss. unfold Earlier.getEnvList, Earlier.getEnvListCached.
  rewrite (cache_miss _ _ _ envListCache set_envListCache this (cwd this) _ s Hmiss).
  unfold Earlier.getEnvListCached_body, mbind, mret, M_bind, M_ret, bind, catch, call_exec,
    ret, lift, trace.
  destruct (exec w _ _ _) as [out|err]; cbn [fst snd]; [| reflexivity].
  destruct (JSON_parse (stdout out)) as [info|e]; cbn [fst snd]; [| reflexivity].
  destruct (member info "environments_info") as [ei|e]; cbn [fst snd]; [| reflexivity].
  destruct (array_map ei _) as [prefixes|e]; reflexivity.
Qed.

(** X17: the two variants of the list accessor compared, for a call that
    finds nothing in the memos and a launcher whose outcome does not depend
    on [throwOnStdErr]: they return the same, except on the document [null],
    for which the variant with [getPixiInfo] returns [undefined] and the
    other one throws a [TypeError]. *)
Theorem list_accessors_differ_on_null_only (w : World) (this : Pixi) (s : State) :
  no_live_entry (infoCache s) (now s) this (cwd this) ->
  no_live_entry (envListCache s) (now s) this (cwd this) ->
  exec w (command this) ["info"; "--json"] {| opt_cwd := cwd this; throwOnStdErr := true |}
  = exec w (command this) ["info"; "--json"] {| opt_cwd := cwd this; throwOnStdErr := false |} ->
  match fst (getPixiInfo w this (cwd this) s) with
  | Ok (Some JNull) =>
      fst (getEnvList w this s) = Ok None
      /\ fst (Earlier.getEnvList w this s) = Throw TypeError
  | _ => fst (Earlier.getEnvList w this s) = fst (getEnvList w this s)
  end.
Proof.
  intros Hinfo Henv Hflag.
  rewrite (earlier_getEnvList_miss w this s Henv), Hflag.
  unfold getEnvList. rewrite (getEnvListCached_miss w this (cwd this) s Henv).
  rewrite (getPixiInfo_miss w this (cwd this) s Hinfo), getPixiInfo_body_eq.
  clear Hflag.
  destruct (exec w (command this) ["info"; "--json"]
              {| opt_cwd := cwd this; throwOnStdErr := false |}) as [out|err];
    [| cbn [fst]; reflexivity].
  destruct (JSON_parse (stdout out)) as [info|e]; [| cbn [fst]; reflexivity].
  cbn [fst]. unfold environment_prefixes.
  destruct info; try (split; reflexivity);
    simpl member;
    try (destruct (array_map _ _); reflexivity).
Qed.

Lemma list_accessors_differ_on_null_only_witness :
  let this := {| command := "pixi"; cwd := "/proj"; oid := 0 |} in
  fst (getEnvList null_world this (initial 0)) = Ok None
  /\ fst (Earlier.getEnvList null_world this (initial 0)) = Throw TypeError.
Proof.
  intros this.
  pose proof (list_accessors_differ_on_null_only null_world this (initial 0)) as H.
  assert (Hnull : fst (getPixiInfo null_world this (cwd this) (initial 0)) = Ok (Some JNull))
    by (vm_compute; reflexivity).
  rewrite Hnull in H. apply H.
  - vm_compute. exact I.
  - vm_compute. exact I.
  - reflexivity.
Defined.

(** ** More on the run arguments *)

(** X18: the argument list tells the requests apart: two calls on one handle
    that build the same list were given the same manifest path, the same
    isolation flag, and environment names with the same effect (the same
    name, or each of them absent or ["default"]). *)
Theorem run_arguments_determine_request (w : World) (this : Pixi) (m m' : string)
    (n n' : option string) (b b' : bool) :
  getRunPythonArgs w this m n b = getRunPythonArgs w this m' n' b' ->
  m = m' /\ b = b' /\ environment_flag n = environment_flag n'.
Proof.
  unfold getRunPythonArgs, environment_flag, isNonDefaultPixiEnvironmentName.
  destruct n as [n|], n' as [n'|];
    try destruct (String.eqb n "default"); try destruct (String.eqb n' "default");
    destruct b, b'; simpl; intros H; inversion H; subst;
    try (repeat split; reflexivity); congruence.
Qed.

Lemma run_arguments_determine_request_witness :
  let w := posix_world Linux false (Ok None) [] run_fails (resolve_bin_python []) in
  let this := {| command := "pixi"; cwd := "/proj"; oid := 0 |} in
  getRunPythonArgs w this "/proj/pixi.toml" (Some "default") true
  = getRunPythonArgs w this "/proj/pixi.toml" None true
  /\ environment_flag (Some "default") = environment_flag None.
Proof.
  intros w this.
  split; [reflexivity |].
  apply (run_arguments_determine_request w this "/proj/pixi.toml" "/proj/pixi.toml"
           (Some "default") None true true).
  reflexivity.
Defined.

(** ** More on the layout *)

(** X19: for an interpreter in the layout, on POSIX paths, the two
    membership checks look at the project directory itself:
    [isPixiEnvironment] asks whether [pixi.toml] joined to the project
    directory exists, and [isPixiEnvironmentRelatedToFolder] whether the
    project directory lies under the folder. *)
Theorem layout_checks_the_project (w : World) (project name folder : string) :
  path w = posix -> plain_directory project -> segment name ->
  let P := interpreter_in (getOSType w) project name in
  isPixiEnvironment w P = pathExists w (str (Posix.join [project; "pixi.toml"]))
  /\ isPixiEnvironmentRelatedToFolder w P folder = isParentPath w folder project.
Proof.
  intros Hpath Hproj Hname P.
  assert (Hdir : getPixiProjectFolderFromInterpreter w P = project).
  { unfold getPixiProjectFolderFromInterpreter, P.
    rewrite (posix_environment_of_interpreter w project name Hpath Hname), Hpath.
    apply posix_project_of_environment; assumption. }
  unfold isPixiEnvironment, isPixiEnvironmentRelatedToFolder.
  rewrite Hdir, Hpath. split; reflexivity.
Qed.

Lemma layout_checks_the_project_witness :
  isPixiEnvironment project_world "/proj/.pixi/envs/py311/bin/python" = true
  /\ isPixiEnvironmentRelatedToFolder project_world "/proj/.pixi/envs/py311/bin/python" "/pro"
     = true.
Proof.
  destruct (layout_checks_the_project project_world "/proj" "py311" "/pro") as [H1 H2].
  - reflexivity.
  - split; [discriminate | reflexivity].
  - split; [discriminate | reflexivity].
  - split; [exact (eq_trans H1 eq_refl) | exact (eq_trans H2 eq_refl)].
Defined.

(** X20: a setting that is unset, empty or the bare command name ["pixi"]
    is no override: [locate] then starts with the bare command, and what it
    returns and what it runs do not depend on which of the three the setting
    is. *)
Theorem default_setting_is_no_override (w : World) (dir : string) (s : State) :
  handles_numbered s ->
  getPythonSetting w "pixiToolPath" = Ok None
  \/ getPythonSetting w "pixiToolPath" = Ok (Some EmptyString)
  \/ getPythonSetting w "pixiToolPath" = Ok (Some "pixi") ->
  fst (locate w dir s)
  = first_functioning w dir ("pixi" :: option_list (home_install w)) (nextOid s)
  /\ execLog (snd (locate w dir s))
     = execLog s ++ probes w dir ("pixi" :: option_list (home_install w)) (nextOid s).
Proof.
  intros Hwf Hset.
  destruct (locate_first_functioning w dir s Hwf) as (Hr & Hlog & _).
  assert (Hcand : candidates w = "pixi" :: option_list (home_install w)).
  { unfold candidates, override. destruct Hset as [-> | [-> | ->]]; reflexivity. }
  rewrite Hr, Hlog, Hcand. split; reflexivity.
Qed.

Lemma default_setting_is_no_override_witness :
  let w := test_world "pixi" (makeExecHandler (Some "pixi") (Some nonWindows_path)) in
  fst (locate w nonWindows_path (initial 0))
  = Ok (Some {| command := "pixi"; cwd := nonWindows_path; oid := 0 |})
  /\ execLog (snd (locate w nonWindows_path (initial 0)))
     = [info_call {| command := "pixi"; cwd := nonWindows_path; oid := 0 |}].
Proof.
  intros w.
  destruct (default_setting_is_no_override w nonWindows_path (initial 0)
              (handles_numbered_initial 0)) as [Hr Hlog].
  - right. right. reflexivity.
  - rewrite Hr, Hlog. split; vm_compute; reflexivity.
Defined.
